(** * Seeded quiz instance generator: pages/api/atividades/plugged/contagem-instance.ts

    A shallow embedding of [mulberry32], [buildInstanceFromSeed] and the
    HTTP [handler], and the properties of the generated quiz instance. *)

From Stdlib Require Import ZArith QArith Qround Lia String DecimalString.
From stdpp Require Import base list.

Local Open Scope Z_scope.

(** ** JavaScript numbers

    Every number the generator manipulates is either an integer held in a
    binary64 double, or a dyadic fraction [u / 2^32] with [0 <= u < 2^32]
    and its products with small integers.  The latter are exact in binary64
    and are modelled in [Q]; the former are modelled in [Z] with the
    rounding of the double addition written out ([fl64]). *)

Module JS.

(** Round an integer to the nearest binary64 value (53-bit significand,
    ties to even).  Integers below [2^53] in magnitude are exact.  The sum
    of a finite double and the stream increment is far from the overflow
    threshold or is rounded back onto the largest double, so no infinity
    arises. *)
Definition fl64 (x : Z) : Z :=
  let m := Z.abs x in
  if m <? 2 ^ 53 then x
  else
    let e := Z.log2 m - 52 in
    let q := Z.shiftr m e in
    let r := m - Z.shiftl q e in
    let half := Z.shiftl 1 (e - 1) in
    let q' := if (r <? half) || ((r =? half) && Z.even q) then q else q + 1 in
    Z.sgn x * Z.shiftl q' e.

(** [x + y] on integer-valued doubles. *)
Definition add (x y : Z) : Z := fl64 (x + y).

(** The abstract operations ToUint32 and ToInt32 on an integer value. *)
Definition ToUint32 (x : Z) : Z := Z.land x 0xFFFFFFFF.

Definition ToInt32 (x : Z) : Z :=
  let u := Z.land x 0xFFFFFFFF in
  if u <? 0x80000000 then u else u - 0x100000000.

(** [x ^ y], [x | y], [x >>> n] and [Math.imul(x, y)]. *)
Definition xor (x y : Z) : Z := Z.lxor (ToInt32 x) (ToInt32 y).
Definition or (x y : Z) : Z := Z.lor (ToInt32 x) (ToInt32 y).
Definition ushr (x n : Z) : Z := Z.shiftr (ToUint32 x) (Z.land n 31).
Definition imul (x y : Z) : Z := ToInt32 (ToUint32 x * ToUint32 y).

End JS.

(** ** The pseudo-random stream

    [mulberry32(a)] returns a closure over the mutable number [a]; a call of
    the closure is a function from the current [a] to the drawn value and
    the next [a]. *)

Definition mulberry32 (a : Z) : Q * Z :=
  let a := JS.add a 0x6d2b79f5 in
  let t := a in
  let t := JS.imul (JS.xor t (JS.ushr t 15)) (JS.or t 1) in
  let t := JS.xor t (t + JS.imul (JS.xor t (JS.ushr t 7)) (JS.or t 61)) in
  ((inject_Z (JS.ushr (JS.xor t (JS.ushr t 14)) 0) / 4294967296)%Q, a).

(** ** The quiz instance *)

Record Alternative := {
  id : string;
  value : Z;
  label : string;
  correct : bool
}.

Record QuizInstance := {
  cards : list Z;
  bits : list Z;
  decimal : Z;
  alternatives : list Alternative;
  seed : Z
}.

(** [rand() > 0.5] *)
Definition Qgtb (x y : Q) : bool := negb (Qle_bool x y).

(** [cards.map(() => (rand() > 0.5 ? 1 : 0))]: one draw per card, in order. *)
Fixpoint draw_bits (cs : list Z) (a : Z) : list Z * Z :=
  match cs with
  | [] => ([], a)
  | _ :: cs' =>
      let '(r, a1) := mulberry32 a in
      let b := if Qgtb r 0.5 then 1 else 0 in
      let '(bs, a2) := draw_bits cs' a1 in
      (b :: bs, a2)
  end.

(** [bits.reduce((acc, b, i) => acc + b * cards[i], 0)], from index [i] on.
    [bits] has the length of [cards], so [cards[i]] is always defined. *)
Fixpoint reduce_from (i : nat) (cs bs : list Z) (acc : Z) : Z :=
  match bs with
  | [] => acc
  | b :: bs' => reduce_from (S i) cs bs' (acc + b * default 0 (cs !! i))
  end.

(** A [Set<number>] keeps its members in insertion order. *)
Fixpoint Set_add (w : Z) (s : list Z) : list Z :=
  match s with
  | [] => [w]
  | x :: s' => if x =? w then s else x :: Set_add w s'
  end.

(** The candidate of one iteration of the distractor loop. *)
Definition wrong_of (dec : Z) (r : Q) : Z :=
  let delta := Qfloor ((r - 0.5) * 8) in
  Z.max 0 (Z.min 15 (dec + delta)).

(** [while (wrongValues.size < 3) { ... }].  The source loop has no bound;
    [fuel] bounds the iterations of the model, and [None] means that [fuel]
    iterations did not fill the set. *)
Fixpoint wrong_loop (fuel : nat) (dec : Z) (a : Z) (ws : list Z)
  : option (list Z * Z) :=
  if (length ws <? 3)%nat then
    match fuel with
    | O => None
    | S fuel' =>
        let '(r, a1) := mulberry32 a in
        let wrongValue := wrong_of dec r in
        wrong_loop fuel' dec a1
          (if wrongValue =? dec then ws else Set_add wrongValue ws)
    end
  else Some (ws, a).

(** [[vs[i], vs[j]] = [vs[j], vs[i]]].  The shuffle only swaps positions
    [j <= i < vs.length] (lemma [pick_out_le]), where both reads are defined
    and no write extends the array; elsewhere the list is left as it is. *)
Definition swap (i j : nat) (vs : list Z) : list Z :=
  match vs !! j, vs !! i with
  | Some vj, Some vi => <[j := vi]> (<[i := vj]> vs)
  | _, _ => vs
  end.

(** One Fisher-Yates index: [Math.floor(rand() * (i + 1))]. *)
Definition pick (r : Q) (i : nat) : nat :=
  Z.to_nat (Qfloor (r * inject_Z (Z.of_nat i + 1))).

(** [for (let i = ...; i > 0; i--) { ... }], entered with index [i]. *)
Fixpoint shuffle_from (i : nat) (a : Z) (vs : list Z) : list Z * Z :=
  match i with
  | O => (vs, a)
  | S i' =>
      let '(r, a1) := mulberry32 a in
      shuffle_from i' a1 (swap i (pick r i) vs)
  end.

(** [letters.map((letter, i) => ({ ... }))], from index [i] on.  The
    shuffled list has one value per letter, so [shuffledValues[i]] is
    always defined. *)
Fixpoint make_alternatives (i : nat) (letters : list string)
    (shuffled : list Z) (dec : Z) : list Alternative :=
  match letters with
  | [] => []
  | letter :: rest =>
      let v := default 0 (shuffled !! i) in
      {| id := String.append "opt" (NilZero.string_of_uint (Nat.to_uint i));
         value := v;
         label := letter;
         correct := v =? dec |}
      :: make_alternatives (S i) rest shuffled dec
  end.

Definition buildInstanceFromSeed (fuel : nat) (s : Z) : option QuizInstance :=
  let a := s in
  let cards := [8; 4; 2; 1] in
  let '(bits, a) := draw_bits cards a in
  let decimal := reduce_from 0 cards bits 0 in
  match wrong_loop fuel decimal a [] with
  | None => None
  | Some (wrongValues, a) =>
      let letters := ["A"; "B"; "C"; "D"]%string in
      let values := decimal :: wrongValues in
      let '(shuffledValues, _) :=
        shuffle_from (length values - 1) a values in
      Some {| cards := cards;
              bits := bits;
              decimal := decimal;
              alternatives := make_alternatives 0 letters shuffledValues decimal;
              seed := s |}
  end.

(** ** The HTTP handler *)

(** The values [res.json] can serialise. *)
#[local] Unset Elimination Schemes.
Inductive json :=
| JNumber (n : Z)
| JString (s : string)
| JBool (b : bool)
| JArray (items : list json)
| JObject (fields : list (string * json)).
#[local] Set Elimination Schemes.

(** Object literals serialise their own properties in insertion order. *)
Definition json_of_alternative (alt : Alternative) : json :=
  JObject [("id", JString (id alt));
           ("value", JNumber (value alt));
           ("label", JString (label alt));
           ("correct", JBool (correct alt))]%string.

Definition json_of_instance (inst : QuizInstance) : json :=
  JObject [("cards", JArray (map JNumber (cards inst)));
           ("bits", JArray (map JNumber (bits inst)));
           ("decimal", JNumber (decimal inst));
           ("alternatives", JArray (map json_of_alternative (alternatives inst)));
           ("seed", JNumber (seed inst))]%string.

Record NextApiRequest := {
  method : string;
  query : list (string * string)
}.

Inductive NextApiResponse :=
| End (status : Z) (body : string)
| Json (status : Z) (body : json).

(** The ambient entropy source: [upcoming k] is the value that the [k]-th
    evaluation of [Math.floor(Math.random() * 1_000_000_000)] yields. *)
Record Entropy := {
  upcoming : nat -> Z;
  drawn : nat
}.

Definition random_seed (e : Entropy) : Z * Entropy :=
  (upcoming e (drawn e), {| upcoming := upcoming e; drawn := S (drawn e) |}).

Definition handler (fuel : nat) (req : NextApiRequest) (e : Entropy)
  : option (NextApiResponse * Entropy) :=
  if negb (String.eqb (method req) "GET") then
    Some (End 405 "Method Not Allowed", e)
  else
    let '(seed, e) := random_seed e in
    match buildInstanceFromSeed fuel seed with
    | None => None
    | Some instance =>
        Some (Json 200 (JObject [("meta", JObject [("titulo", JString "Contagem (plugged)")]);
                                 ("instance", json_of_instance instance)]%string),
              e)
    end.

(** An entropy source whose every draw is [z]. *)
Definition constant_entropy (z : Z) : Entropy :=
  {| upcoming := fun _ => z; drawn := 0 |}.

(** Reading a serialised payload back. *)
Fixpoint field (k : string) (fields : list (string * json)) : option json :=
  match fields with
  | [] => None
  | (k', v) :: rest => if String.eqb k k' then Some v else field k rest
  end.

Definition get (k : string) (j : json) : option json :=
  match j with
  | JObject fields => field k fields
  | _ => None
  end.

Definition payload_alternatives (payload : json) : list json :=
  match get "instance" payload with
  | Some inst =>
      match get "alternatives" inst with
      | Some (JArray items) => items
      | _ => []
      end
  | None => []
  end.

Definition has_boolean_field (k : string) (j : json) : bool :=
  match get k j with
  | Some (JBool _) => true
  | _ => false
  end.

(** The instance of seed 12345. *)
Definition instance_12345 : QuizInstance :=
  {| cards := [8; 4; 2; 1];
     bits := [1; 0; 0; 1];
     decimal := 9;
     alternatives :=
       [{| id := "opt0"; value := 7; label := "A"; correct := false |};
        {| id := "opt1"; value := 9; label := "B"; correct := true |};
        {| id := "opt2"; value := 5; label := "C"; correct := false |};
        {| id := "opt3"; value := 11; label := "D"; correct := false |}];
     seed := 12345 |}.

(** ** The properties, in the words of the specification *)

(** Sum over [i] of [bits[i] * cards[i]]. *)
Fixpoint dot_product (bs cs : list Z) : Z :=
  match bs, cs with
  | b :: bs', c :: cs' => b * c + dot_product bs' cs'
  | _, _ => 0
  end.

(** "Swap values at [i] and [j]": position [i] receives the old value of
    position [j] and conversely, every other position is left alone. *)
Definition swapped (i j : nat) (vs : list Z) : list Z :=
  imap (fun k v =>
          if (k =? i)%nat then default v (vs !! j)
          else if (k =? j)%nat then default v (vs !! i)
          else v) vs.

(** "For i from 3 down to 1: draw j = floor(stream() * (i+1)); swap values
    at i and j", on the three draws [r3], [r2], [r1]. *)
Definition fisher_yates4 (r3 r2 r1 : Q) (vs : list Z) : list Z :=
  let vs := swapped 3 (Z.to_nat (Qfloor (r3 * 4))) vs in
  let vs := swapped 2 (Z.to_nat (Qfloor (r2 * 3))) vs in
  swapped 1 (Z.to_nat (Qfloor (r1 * 2))) vs.

Definition in_range (v : Z) : Prop := 0 <= v <= 15.

(** ** The stream as a counter

    The drawn value depends on the incremented state only through its
    residue modulo [2^32]. *)

Definition increment : Z := 0x6d2b79f5.

Definition scramble (t : Z) : Z :=
  let t := JS.imul (JS.xor t (JS.ushr t 15)) (JS.or t 1) in
  let t := JS.xor t (t + JS.imul (JS.xor t (JS.ushr t 7)) (JS.or t 61)) in
  JS.ushr (JS.xor t (JS.ushr t 14)) 0.

Definition out (t : Z) : Q := (inject_Z (scramble t) / 4294967296)%Q.

(** The signed offset [Math.floor((rand() - 0.5) * 8)] of a draw. *)
Definition delta_of (t : Z) : Z := Qfloor ((out t - 0.5) * 8).

(** The three most significant bits of a draw number its offset. *)
Definition bucket (t : Z) : Z := Z.shiftr (scramble t) 29.

(** Does one of the [n] draws at counters [t], [t + increment], ... have
    offset [delta]? *)
Fixpoint find_delta (n : nat) (t : Z) (delta : Z) : bool :=
  match n with
  | O => false
  | S n' =>
      if bucket t =? delta + 4 then true
      else find_delta n' (t + increment) delta
  end.

(** The counter values [increment * p] are cut, by position [p], into 1024
    blocks of [2^22] positions; the first [block_len] draws of each block
    are inspected. *)
Definition block_len : nat := 128.

Definition block_start (j : Z) : Z := Z.land (increment * (0x400000 * j)) 0xFFFFFFFF.

Definition needed_deltas : list Z := [1; 2; 3; -1; -2; -3].

Definition block_ok (j : Z) : bool :=
  let t := block_start j in
  find_delta block_len t 1 && find_delta block_len t 2 && find_delta block_len t 3
  && find_delta block_len t (-1) && find_delta block_len t (-2)
  && find_delta block_len t (-3).

Fixpoint blocks_ok (n : nat) : bool :=
  match n with
  | O => true
  | S n' => if block_ok (Z.of_nat n') then blocks_ok n' else false
  end.

(** The inverse of [increment] modulo [2^32]. *)
Definition increment_inv : Z := 0xdc58aa5d.

(** ** Loop invariants *)

(** What [wrongValues] satisfies at every iteration. *)
Definition wrong_inv (dec : Z) (ws : list Z) : Prop :=
  NoDup ws /\ Forall (fun w => in_range w /\ w <> dec) ws /\ (length ws <= 3)%nat.

(** A value is reachable from a loop state when it is already in the set
    or is the candidate of one of the next [n] draws. *)
Definition reachable (dec a : Z) (n : nat) (ws : list Z) (t : Z) : Prop :=
  t ∈ ws \/
  exists k, 1 <= k <= Z.of_nat n /\ wrong_of dec (out (a + k * increment)) = t.

(** ** Further properties of the generator *)

(** A value within the reach of one offset, [-4..+3], of the decimal. *)
Definition near (dec w : Z) : Prop := dec - 4 <= w <= dec + 3.

(** The four binary digits of [d], most significant first. *)
Definition binary4 (d : Z) : list Z :=
  map (fun k => Z.b2z (Z.testbit d k)) [3; 2; 1; 0].

(** The instances of seeds 0, -1 and 4294967295. *)
Definition alternatives_of (v0 v1 v2 v3 dec : Z) : list Alternative :=
  [{| id := "opt0"; value := v0; label := "A"; correct := v0 =? dec |};
   {| id := "opt1"; value := v1; label := "B"; correct := v1 =? dec |};
   {| id := "opt2"; value := v2; label := "C"; correct := v2 =? dec |};
   {| id := "opt3"; value := v3; label := "D"; correct := v3 =? dec |}].

Definition instance_0 : QuizInstance :=
  {| cards := [8; 4; 2; 1]; bits := [0; 0; 0; 0]; decimal := 0;
     alternatives := alternatives_of 2 0 1 3 0; seed := 0 |}.

Definition instance_minus_1 : QuizInstance :=
  {| cards := [8; 4; 2; 1]; bits := [1; 0; 1; 1]; decimal := 11;
     alternatives := alternatives_of 10 13 12 11 11; seed := -1 |}.

Definition instance_4294967295 : QuizInstance :=
  {| cards := [8; 4; 2; 1]; bits := [1; 0; 1; 1]; decimal := 11;
     alternatives := alternatives_of 10 13 12 11 11; seed := 4294967295 |}.

(** Does a serialised alternative carry the value [d]? *)
Definition json_value_is (d : Z) (alt : json) : bool :=
  match get "value" alt with
  | Some (JNumber v) => v =? d
  | _ => false
  end.

(** The payload sent for seed 12345. *)
Definition payload_12345 : json :=
  JObject [("meta", JObject [("titulo", JString "Contagem (plugged)")]);
           ("instance", json_of_instance instance_12345)]%string.

(** ** What a returned instance satisfies *)

(** Exactly one alternative is flagged, and it carries the decimal. *)
Definition one_correct (inst : QuizInstance) : Prop :=
  length (List.filter correct (alternatives inst)) = 1%nat /\
  (forall alt, alt ∈ alternatives inst ->
               correct alt = true -> value alt = decimal inst).

(** The decimal is the dot product of the bits and the cards 8, 4, 2, 1. *)
Definition decimal_consistent (inst : QuizInstance) : Prop :=
  cards inst = [8; 4; 2; 1] /\
  decimal inst = dot_product (bits inst) (cards inst).

(** Four alternatives, with pairwise distinct values: the decimal and three
    wrong values. *)
Definition values_distinct (inst : QuizInstance) : Prop :=
  length (alternatives inst) = 4%nat /\
  NoDup (map value (alternatives inst)) /\
  exists w1 w2 w3,
    map value (alternatives inst) ≡ₚ [decimal inst; w1; w2; w3] /\
    w1 <> w2 /\ w1 <> w3 /\ w2 <> w3 /\
    w1 <> decimal inst /\ w2 <> decimal inst /\ w3 <> decimal inst.

(** The decimal and every alternative value lie in 0..15. *)
Definition values_in_0_15 (inst : QuizInstance) : Prop :=
  in_range (decimal inst) /\
  Forall (fun alt => in_range (value alt)) (alternatives inst).

(** The run on seed [s] with budget [fuel] drew the bits, collected the
    wrong values [w1], [w2], [w3] in this order, then took three more draws
    [r3], [r2], [r1]; the values of [inst] are the Fisher-Yates shuffle of
    [decimal, w1, w2, w3] on these draws, labelled A to D in order. *)
Definition shuffled_as_specified (fuel : nat) (s : Z) (inst : QuizInstance)
  : Prop :=
  exists bs a0 w1 w2 w3 a r3 a3 r2 a2 r1 a1,
    draw_bits [8; 4; 2; 1] s = (bs, a0) /\
    wrong_loop fuel (decimal inst) a0 [] = Some ([w1; w2; w3], a) /\
    mulberry32 a = (r3, a3) /\
    mulberry32 a3 = (r2, a2) /\
    mulberry32 a2 = (r1, a1) /\
    map value (alternatives inst)
    = fisher_yates4 r3 r2 r1 [decimal inst; w1; w2; w3] /\
    map label (alternatives inst) = ["A"; "B"; "C"; "D"]%string /\
    map id (alternatives inst) = ["opt0"; "opt1"; "opt2"; "opt3"]%string.

(** ** The 32-bit operations *)

Lemma ToUint32_mod x : JS.ToUint32 x = x mod 2 ^ 32.
Proof. unfold JS.ToUint32. apply (Z.land_ones x 32). lia. Qed.

Lemma ToUint32_congr x y :
  x mod 2 ^ 32 = y mod 2 ^ 32 -> JS.ToUint32 x = JS.ToUint32 y.
Proof. rewrite !ToUint32_mod. auto. Qed.

Lemma ToInt32_congr x y :
  x mod 2 ^ 32 = y mod 2 ^ 32 -> JS.ToInt32 x = JS.ToInt32 y.
Proof.
  intros H. apply ToUint32_congr in H. unfold JS.ToInt32.
  unfold JS.ToUint32 in H. now rewrite H.
Qed.

Lemma ToUint32_range x : 0 <= JS.ToUint32 x < 2 ^ 32.
Proof. rewrite ToUint32_mod. apply Z.mod_pos_bound. lia. Qed.

Lemma ushr_range x n : 0 <= JS.ushr x n < 2 ^ 32.
Proof.
  unfold JS.ushr. pose proof (ToUint32_range x) as [H0 H1].
  split.
  - apply Z.shiftr_nonneg. exact H0.
  - rewrite Z.shiftr_div_pow2.
    + apply Z.le_lt_trans with (JS.ToUint32 x); [|exact H1].
      apply Z.div_le_upper_bound.
      * apply Z.pow_pos_nonneg; [lia|]. rewrite Z.land_ones with (n := 5) by lia.
        apply Z.mod_pos_bound. lia.
      * assert (1 <= 2 ^ Z.land n 31); [|nia].
        assert (0 < 2 ^ Z.land n 31); [|lia].
        apply Z.pow_pos_nonneg; [lia|].
        change 31 with (Z.ones 5). rewrite Z.land_ones by lia.
        apply Z.mod_pos_bound. lia.
    + change 31 with (Z.ones 5). rewrite Z.land_ones by lia.
      apply Z.mod_pos_bound. lia.
Qed.

Lemma scramble_range t : 0 <= scramble t < 2 ^ 32.
Proof. unfold scramble. apply ushr_range. Qed.

Lemma scramble_congr x y :
  x mod 2 ^ 32 = y mod 2 ^ 32 -> scramble x = scramble y.
Proof.
  intros H. unfold scramble, JS.xor, JS.or, JS.ushr.
  now rewrite (ToInt32_congr x y H), (ToUint32_congr x y H).
Qed.

Lemma fl64_exact x : - 2 ^ 53 < x < 2 ^ 53 -> JS.fl64 x = x.
Proof.
  intros H. unfold JS.fl64.
  destruct (Z.ltb_spec (Z.abs x) (2 ^ 53)); [reflexivity | lia].
Qed.

Lemma mulberry32_out a :
  mulberry32 a = (out (JS.add a increment), JS.add a increment).
Proof. unfold mulberry32, out, scramble, increment. cbv zeta. reflexivity. Qed.

Lemma mulberry32_exact a :
  - 2 ^ 53 < a + increment < 2 ^ 53 ->
  mulberry32 a = (out (a + increment), a + increment).
Proof.
  intros H. rewrite mulberry32_out. unfold JS.add. now rewrite (fl64_exact _ H).
Qed.

#[local] Opaque mulberry32.

(** ** Bits and decimal *)

Lemma draw_bits_spec cs : forall a bs a',
  draw_bits cs a = (bs, a') ->
  length bs = length cs /\ Forall (fun b => b = 0 \/ b = 1) bs.
Proof.
  induction cs as [|c cs IH]; simpl; intros a bs a' H.
  - inversion H. split; [reflexivity | constructor].
  - destruct (mulberry32 a) as [r a1].
    destruct (draw_bits cs a1) as [bs1 a2] eqn:E.
    inversion H; subst. destruct (IH _ _ _ E) as [Hl Hf].
    split; [simpl; congruence|].
    constructor; [destruct (Qgtb r 0.5); auto | exact Hf].
Qed.

Lemma reduce_from_dot cs : forall bs i acc,
  (i + length bs <= length cs)%nat ->
  reduce_from i cs bs acc = acc + dot_product bs (drop i cs).
Proof.
  induction bs as [|b bs IH]; simpl; intros i acc H.
  - lia.
  - destruct (lookup_lt_is_Some_2 cs i) as [c Hc]; [lia|].
    rewrite Hc. simpl. rewrite (drop_S _ _ _ Hc).
    rewrite IH by lia. lia.
Qed.

Lemma dot_product_range b0 b1 b2 b3 :
  Forall (fun b => b = 0 \/ b = 1) [b0; b1; b2; b3] ->
  in_range (dot_product [b0; b1; b2; b3] [8; 4; 2; 1]).
Proof.
  intros H. repeat (apply Forall_cons_1 in H; destruct H as [? H]).
  unfold in_range. simpl. lia.
Qed.

(** ** The set of wrong values *)

Lemma Set_add_elem w s x : x ∈ Set_add w s <-> x = w \/ x ∈ s.
Proof.
  induction s as [|y s IH]; simpl.
  - rewrite list_elem_of_singleton. split; [auto | intros [H|H]; [auto | inversion H]].
  - destruct (Z.eqb_spec y w) as [->|Hne].
    + split; [auto | intros [->|H]; [left | exact H]].
    + rewrite !elem_of_cons, IH. tauto.
Qed.

Lemma Set_add_NoDup w s : NoDup s -> NoDup (Set_add w s).
Proof.
  induction s as [|y s IH]; simpl; intros H.
  - apply NoDup_singleton.
  - destruct (Z.eqb_spec y w) as [->|Hne]; [exact H|].
    apply NoDup_cons in H as [Hy Hs]. apply NoDup_cons. split; [|auto].
    rewrite Set_add_elem. intros [->|Hin]; [congruence | auto].
Qed.

Lemma Set_add_length w s :
  (length s <= length (Set_add w s) <= S (length s))%nat.
Proof.
  induction s as [|y s IH]; simpl; [lia|].
  destruct (y =? w); simpl; lia.
Qed.

Lemma wrong_of_range dec r : in_range (wrong_of dec r).
Proof. unfold in_range, wrong_of. lia. Qed.

Lemma wrong_inv_step dec r ws :
  (length ws < 3)%nat -> wrong_inv dec ws ->
  wrong_inv dec (if wrong_of dec r =? dec then ws else Set_add (wrong_of dec r) ws).
Proof.
  intros Hlt (Hnd & Hall & Hlen).
  destruct (Z.eqb_spec (wrong_of dec r) dec) as [_|Hne]; [repeat split; auto|].
  repeat split.
  - now apply Set_add_NoDup.
  - apply Forall_forall. intros x Hx. apply Set_add_elem in Hx as [->|Hx].
    + split; [apply wrong_of_range | exact Hne].
    + rewrite Forall_forall in Hall. auto.
  - pose proof (Set_add_length (wrong_of dec r) ws). lia.
Qed.

Lemma wrong_loop_inv fuel dec : forall a ws ws' a',
  wrong_loop fuel dec a ws = Some (ws', a') ->
  wrong_inv dec ws ->
  wrong_inv dec ws' /\ length ws' = 3%nat.
Proof.
  induction fuel as [|fuel IH]; simpl; intros a ws ws' a' H Hinv.
  - destruct (Nat.ltb_spec (length ws) 3); [discriminate|].
    inversion H; subst. split; [exact Hinv|]. destruct Hinv as (_ & _ & ?). lia.
  - destruct (Nat.ltb_spec (length ws) 3) as [Hlt|Hge].
    + destruct (mulberry32 a) as [r a1].
      eapply IH; [exact H|]. now apply wrong_inv_step.
    + inversion H; subst. split; [exact Hinv|]. destruct Hinv as (_ & _ & ?). lia.
Qed.

Lemma wrong_inv_nil dec : wrong_inv dec [].
Proof. repeat split; [apply NoDup_nil_2 | constructor | simpl; lia]. Qed.

(** More fuel does not change a result. *)
Lemma wrong_loop_mono fuel dec : forall a ws res k,
  wrong_loop fuel dec a ws = Some res ->
  wrong_loop (fuel + k) dec a ws = Some res.
Proof.
  induction fuel as [|fuel IH]; intros a ws res k H.
  - simpl in H. destruct (Nat.ltb_spec (length ws) 3) as [Hlt|Hge]; [discriminate|].
    destruct k; simpl; destruct (Nat.ltb_spec (length ws) 3); try lia; exact H.
  - simpl in *. destruct (length ws <? 3)%nat; [|exact H].
    destruct (mulberry32 a) as [r a1]. now apply IH.
Qed.

Lemma wrong_loop_agree f1 f2 dec a ws r1 r2 :
  wrong_loop f1 dec a ws = Some r1 ->
  wrong_loop f2 dec a ws = Some r2 ->
  r1 = r2.
Proof.
  intros H1 H2.
  apply (wrong_loop_mono _ _ _ _ _ f2) in H1.
  apply (wrong_loop_mono _ _ _ _ _ f1) in H2.
  rewrite (Nat.add_comm f2 f1) in H2. congruence.
Qed.

(** ** The shuffle *)

Lemma swap_Permutation i j vs : swap i j vs ≡ₚ vs.
Proof.
  unfold swap.
  destruct (vs !! j) as [vj|] eqn:Ej; [|reflexivity].
  destruct (vs !! i) as [vi|] eqn:Ei; [|reflexivity].
  now apply Permutation_insert_swap.
Qed.

Lemma shuffle_from_Permutation i : forall a vs sh a',
  shuffle_from i a vs = (sh, a') -> sh ≡ₚ vs.
Proof.
  induction i as [|i IH]; simpl; intros a vs sh a' H.
  - inversion H. reflexivity.
  - destruct (mulberry32 a) as [r a1].
    rewrite (IH _ _ _ _ H). apply swap_Permutation.
Qed.

(** ** The alternatives *)

Lemma make_alternatives_value letters shuffled dec : forall i,
  (i + length letters <= length shuffled)%nat ->
  map value (make_alternatives i letters shuffled dec)
  = take (length letters) (drop i shuffled).
Proof.
  induction letters as [|l letters IH]; simpl; intros i H; [reflexivity|].
  destruct (lookup_lt_is_Some_2 shuffled i) as [v Hv]; [lia|].
  rewrite Hv, (drop_S _ _ _ Hv). simpl. f_equal. apply IH. lia.
Qed.

Lemma make_alternatives_label letters shuffled dec : forall i,
  map label (make_alternatives i letters shuffled dec) = letters.
Proof.
  induction letters as [|l letters IH]; simpl; intros i; [reflexivity|].
  f_equal. apply IH.
Qed.

Lemma make_alternatives_correct letters shuffled dec : forall i,
  Forall (fun alt => correct alt = (value alt =? dec))
         (make_alternatives i letters shuffled dec).
Proof.
  induction letters as [|l letters IH]; simpl; intros i; constructor; auto.
Qed.

(** ** The shape of a returned instance *)

Lemma buildInstanceFromSeed_inv fuel s inst :
  buildInstanceFromSeed fuel s = Some inst ->
  exists bs a0 ws a1 sh a2,
    draw_bits [8; 4; 2; 1] s = (bs, a0) /\
    wrong_loop fuel (decimal inst) a0 [] = Some (ws, a1) /\
    shuffle_from 3 a1 (decimal inst :: ws) = (sh, a2) /\
    decimal inst = reduce_from 0 [8; 4; 2; 1] bs 0 /\
    cards inst = [8; 4; 2; 1] /\
    bits inst = bs /\
    alternatives inst
    = make_alternatives 0 ["A"; "B"; "C"; "D"]%string sh (decimal inst) /\
    seed inst = s.
Proof.
  unfold buildInstanceFromSeed. intros H.
  destruct (draw_bits [8; 4; 2; 1] s) as [bs a0] eqn:Eb.
  destruct (wrong_loop fuel (reduce_from 0 [8; 4; 2; 1] bs 0) a0 [])
    as [[ws a1]|] eqn:Ew; [|discriminate].
  destruct (wrong_loop_inv _ _ _ _ _ _ Ew (wrong_inv_nil _)) as [_ Hlen].
  destruct (shuffle_from (length (reduce_from 0 [8; 4; 2; 1] bs 0 :: ws) - 1)
              a1 (reduce_from 0 [8; 4; 2; 1] bs 0 :: ws)) as [sh a2] eqn:Es.
  simpl length in Es. rewrite Hlen in Es. simpl in Es.
  inversion H; subst; simpl.
  exists bs, a0, ws, a1, sh, a2. repeat split; auto.
Qed.

(** The facts shared by the properties of a returned instance. *)
Lemma instance_facts fuel s inst :
  buildInstanceFromSeed fuel s = Some inst ->
  exists ws,
    map value (alternatives inst) ≡ₚ decimal inst :: ws /\
    wrong_inv (decimal inst) ws /\ length ws = 3%nat /\
    in_range (decimal inst) /\
    decimal inst = dot_product (bits inst) (cards inst) /\
    Forall (fun alt => correct alt = (value alt =? decimal inst))
           (alternatives inst).
Proof.
  intros H.
  destruct (buildInstanceFromSeed_inv _ _ _ H)
    as (bs & a0 & ws & a1 & sh & a2 & Hb & Hw & Hs & Hd & Hc & Hbits & Ha & _).
  destruct (wrong_loop_inv _ _ _ _ _ _ Hw (wrong_inv_nil _)) as [Hinv Hlen].
  destruct (draw_bits_spec _ _ _ _ Hb) as [Hbl Hbf].
  pose proof (shuffle_from_Permutation _ _ _ _ _ Hs) as Hp.
  assert (Hdot : decimal inst = dot_product bs [8; 4; 2; 1]).
  { rewrite Hd, reduce_from_dot by (rewrite Hbl; simpl; lia). simpl drop. lia. }
  assert (Hsh : length sh = 4%nat).
  { rewrite (Permutation_length Hp). simpl. lia. }
  assert (Hrange : in_range (decimal inst)).
  { rewrite Hdot.
    destruct bs as [|b0 [|b1 [|b2 [|b3 [|? ?]]]]]; try discriminate.
    now apply dot_product_range. }
  exists ws. split; [|split; [exact Hinv|split; [exact Hlen|split; [exact Hrange|split]]]].
  - rewrite Ha, make_alternatives_value by (rewrite Hsh; simpl; lia).
    rewrite drop_0, take_ge by (rewrite Hsh; simpl; lia). exact Hp.
  - now rewrite Hbits, Hc.
  - rewrite Ha. apply make_alternatives_correct.
Qed.

Lemma buildInstanceFromSeed_mono fuel k s inst :
  buildInstanceFromSeed fuel s = Some inst ->
  buildInstanceFromSeed (fuel + k) s = Some inst.
Proof.
  unfold buildInstanceFromSeed.
  destruct (draw_bits [8; 4; 2; 1] s) as [bs a0].
  destruct (wrong_loop fuel _ a0 []) as [[ws a1]|] eqn:Ew; [|discriminate].
  now rewrite (wrong_loop_mono _ _ _ _ _ k Ew).
Qed.

Lemma filter_correct_count dec alts :
  Forall (fun alt => correct alt = (value alt =? dec)) alts ->
  length (List.filter correct alts) = count_occ Z.eq_dec (map value alts) dec.
Proof.
  induction 1 as [|alt alts Hc _ IH]; simpl; [reflexivity|].
  rewrite Hc. destruct (Z.eqb_spec (value alt) dec) as [E|E];
    destruct (Z.eq_dec (value alt) dec); try contradiction; simpl; congruence.
Qed.

Lemma instance_values fuel s inst :
  buildInstanceFromSeed fuel s = Some inst ->
  length (alternatives inst) = 4%nat /\ NoDup (map value (alternatives inst)).
Proof.
  intros H.
  destruct (instance_facts _ _ _ H) as (ws & Hp & (Hnd & Hall & _) & Hlen & _).
  split.
  - rewrite <- (length_map value), (Permutation_length Hp). simpl. lia.
  - rewrite Hp. apply NoDup_cons. split; [|exact Hnd].
    intros Hin. rewrite Forall_forall in Hall. apply Hall in Hin. tauto.
Qed.

(** ** Properties of a returned instance

    These hold of every instance the generator returns, whatever the seed
    and the iteration budget.  That an instance is returned is
    [generator_total] below. *)

(** A returned instance has exactly one alternative with [correct = true],
    and the value of that alternative is the instance's decimal. *)
Lemma exactly_one_correct_returned fuel s inst :
  buildInstanceFromSeed fuel s = Some inst ->
  length (List.filter correct (alternatives inst)) = 1%nat /\
  (forall alt, alt ∈ alternatives inst ->
               correct alt = true -> value alt = decimal inst).
Proof.
  intros H.
  destruct (instance_facts _ _ _ H) as (ws & Hp & (Hnd & Hall & _) & _ & _ & _ & Hc).
  split.
  - rewrite (filter_correct_count _ _ Hc).
    rewrite (proj1 (Permutation_count_occ Z.eq_dec _ _) Hp). simpl.
    destruct (Z.eq_dec (decimal inst) (decimal inst)); [|contradiction].
    f_equal. apply count_occ_not_In. intros Hin.
    rewrite Forall_forall in Hall. apply list_elem_of_In, Hall in Hin. tauto.
  - intros alt Hin Htrue. rewrite Forall_forall in Hc.
    rewrite (Hc _ Hin) in Htrue. now apply Z.eqb_eq.
Qed.


(** The decimal of a returned instance is the dot product of its bits and
    its cards, and the cards are 8, 4, 2, 1. *)
Lemma decimal_is_dot_product_returned fuel s inst :
  buildInstanceFromSeed fuel s = Some inst ->
  cards inst = [8; 4; 2; 1] /\
  decimal inst = dot_product (bits inst) (cards inst).
Proof.
  intros H.
  destruct (buildInstanceFromSeed_inv _ _ _ H) as (? & ? & ? & ? & ? & ? & H').
  destruct (instance_facts _ _ _ H) as (ws & _ & _ & _ & _ & Hd & _).
  split; [apply H' | exact Hd].
Qed.

(** The four alternative values of a returned instance are pairwise
    distinct: they are the decimal and three wrong values, all different. *)
Lemma alternative_values_distinct_returned fuel s inst :
  buildInstanceFromSeed fuel s = Some inst ->
  length (alternatives inst) = 4%nat /\
  NoDup (map value (alternatives inst)) /\
  exists w1 w2 w3,
    map value (alternatives inst) ≡ₚ [decimal inst; w1; w2; w3] /\
    w1 <> w2 /\ w1 <> w3 /\ w2 <> w3 /\
    w1 <> decimal inst /\ w2 <> decimal inst /\ w3 <> decimal inst.
Proof.
  intros H.
  destruct (instance_facts _ _ _ H) as (ws & Hp & (Hnd & Hall & _) & Hlen & _).
  destruct (instance_values _ _ _ H) as (Hlen4 & Hnd4).
  destruct ws as [|w1 [|w2 [|w3 [|? ?]]]]; try discriminate.
  rewrite Hp in Hnd4.
  split; [exact Hlen4|split].
  - now rewrite Hp.
  - exists w1, w2, w3. split; [exact Hp|].
    rewrite !NoDup_cons, !elem_of_cons in Hnd4.
    repeat split; intros ->; tauto.
Qed.

(** The decimal of a returned instance and the value of each of its
    alternatives lie in the closed range 0..15. *)
Lemma values_in_range_returned fuel s inst :
  buildInstanceFromSeed fuel s = Some inst ->
  in_range (decimal inst) /\
  Forall (fun alt => in_range (value alt)) (alternatives inst).
Proof.
  intros H.
  destruct (instance_facts _ _ _ H) as (ws & Hp & (_ & Hall & _) & _ & Hr & _).
  split; [exact Hr|].
  apply Forall_forall. intros alt Hin.
  assert (Hv : value alt ∈ decimal inst :: ws).
  { rewrite <- Hp. apply list_elem_of_fmap. eauto. }
  apply elem_of_cons in Hv as [->|Hv]; [exact Hr|].
  rewrite Forall_forall in Hall. now apply Hall.
Qed.

(** ** Termination of the distractor loop *)

Lemma out_eq t : out t = (inject_Z (scramble t) / 4294967296)%Q.
Proof. reflexivity. Qed.

Lemma Qfloor_delta u :
  Qfloor ((inject_Z u / 4294967296 - 0.5) * 8) = u / 2 ^ 29 - 4.
Proof.
  cbv [Qfloor Qminus Qplus Qopp Qmult Qdiv Qinv inject_Z Qnum Qden].
  replace ((u * 1 * 10 + - (5) * Z.pos (1 * 4294967296)) * 8)
    with ((u + (-4) * 2 ^ 29) * 80)
    by (change (Z.pos (1 * 4294967296)) with (8 * 2 ^ 29); ring).
  change (Z.pos (1 * 4294967296 * 10 * 1)) with (2 ^ 29 * 80).
  rewrite Z.div_mul_cancel_r by lia.
  rewrite Z.div_add by lia. lia.
Qed.

Lemma Qfloor_scaled u n :
  Qfloor ((inject_Z u / 4294967296) * inject_Z n) = u * n / 2 ^ 32.
Proof.
  cbv [Qfloor Qminus Qplus Qopp Qmult Qdiv Qinv inject_Z Qnum Qden].
  rewrite Z.mul_1_r. reflexivity.
Qed.

Lemma delta_of_bucket t : delta_of t = bucket t - 4.
Proof.
  unfold delta_of, bucket. rewrite out_eq, Qfloor_delta.
  now rewrite Z.shiftr_div_pow2 by lia.
Qed.

Lemma bucket_congr x y : x mod 2 ^ 32 = y mod 2 ^ 32 -> bucket x = bucket y.
Proof. intros H. unfold bucket. now rewrite (scramble_congr x y H). Qed.

Lemma wrong_of_out dec t :
  wrong_of dec (out t) = Z.max 0 (Z.min 15 (dec + delta_of t)).
Proof. unfold wrong_of, delta_of. reflexivity. Qed.

Lemma find_delta_sound delta : forall n t,
  find_delta n t delta = true ->
  exists i, 0 <= i < Z.of_nat n /\ bucket (t + i * increment) = delta + 4.
Proof.
  induction n as [|n IH]; cbn [find_delta]; intros t H; [discriminate|].
  destruct (Z.eqb_spec (bucket t) (delta + 4)) as [E|_].
  - exists 0. split; [lia|]. now rewrite Z.mul_0_l, Z.add_0_r.
  - destruct (IH _ H) as (i & Hi & Hb). exists (i + 1). split; [lia|].
    rewrite <- Hb. f_equal. lia.
Qed.

Lemma blocks_ok_each n : blocks_ok n = true ->
  forall j, 0 <= j < Z.of_nat n -> block_ok j = true.
Proof.
  induction n as [|n IH]; cbn [blocks_ok]; intros H j Hj; [lia|].
  destruct (block_ok (Z.of_nat n)) eqn:E; [|discriminate].
  destruct (Z.eq_dec j (Z.of_nat n)) as [->|Hne]; [exact E | apply IH; [exact H | lia]].
Qed.

Lemma blocks_ok_1024 : blocks_ok 1024 = true.
Proof. vm_compute. reflexivity. Qed.

Lemma block_ok_needed j delta :
  block_ok j = true -> delta ∈ needed_deltas ->
  find_delta block_len (block_start j) delta = true.
Proof.
  unfold block_ok, needed_deltas. intros H Hin.
  repeat (apply andb_prop in H; destruct H as [H ?]).
  repeat (apply elem_of_cons in Hin as [->|Hin]; [assumption|]).
  inversion Hin.
Qed.

Lemma mod_eq_of_multiple x y q : x = y + q * 2 ^ 32 -> x mod 2 ^ 32 = y mod 2 ^ 32.
Proof. intros ->. apply Z_mod_plus_full. Qed.

(** From any state, a block start is at most [2^22] draws away. *)
Lemma block_reach a :
  exists k j, 1 <= k <= 2 ^ 22 /\ 0 <= j < 1024 /\
    forall i, (a + (k + i) * increment) mod 2 ^ 32
              = (block_start j + i * increment) mod 2 ^ 32.
Proof.
  set (p := (a * increment_inv) mod 2 ^ 32).
  set (h := p / 2 ^ 22).
  set (j := (h + 1) mod 1024).
  exists (2 ^ 22 - p mod 2 ^ 22), j.
  assert (Hp : 0 <= p mod 2 ^ 22 < 2 ^ 22) by (apply Z.mod_pos_bound; lia).
  assert (Hj : 0 <= j < 1024) by (apply Z.mod_pos_bound; lia).
  split; [lia|]. split; [exact Hj|]. intros i.
  unfold block_start. change 0xFFFFFFFF with (Z.ones 32).
  rewrite Z.land_ones by lia. rewrite Zplus_mod_idemp_l.
  pose proof (Z.div_mod (a * increment_inv) (2 ^ 32) ltac:(lia)) as E1.
  fold p in E1.
  pose proof (Z.div_mod p (2 ^ 22) ltac:(lia)) as E2. fold h in E2.
  pose proof (Z.div_mod (h + 1) 1024 ltac:(lia)) as E3. fold j in E3.
  set (q1 := a * increment_inv / 2 ^ 32) in *.
  set (q3 := (h + 1) / 1024) in *.
  set (r := p mod 2 ^ 22) in *.
  apply mod_eq_of_multiple
    with (q := increment * q3 + increment * q1 - a * ((increment * increment_inv) / 2 ^ 32)).
  assert (E0 : increment * increment_inv
               = 1 + 2 ^ 32 * ((increment * increment_inv) / 2 ^ 32)) by reflexivity.
  set (c0 := increment * increment_inv / 2 ^ 32) in *.
  assert (Ea : a = increment * p + 2 ^ 32 * (increment * q1 - a * c0)).
  { transitivity (a * (increment * increment_inv)
                  - 2 ^ 32 * a * c0); [rewrite E0; ring|].
    replace (a * (increment * increment_inv))
      with (increment * (a * increment_inv)) by ring.
    rewrite E1. ring. }
  assert (Eh : h = 1024 * q3 + j - 1) by lia.
  assert (Er : r = p - 2 ^ 22 * h) by lia.
  rewrite Er, Eh. rewrite Ea at 1.
  change (2 ^ 32) with (2 ^ 22 * 1024). change 0x400000 with (2 ^ 22). ring.
Qed.

(** Every needed offset is drawn within [2^22 + 127] draws of any state. *)
Lemma every_delta_soon a delta :
  delta ∈ needed_deltas ->
  exists k, 1 <= k <= 4194431 /\ delta_of (a + k * increment) = delta.
Proof.
  intros Hin.
  destruct (block_reach a) as (k & j & Hk & Hj & Hcong).
  pose proof (blocks_ok_each _ blocks_ok_1024 j ltac:(lia)) as Hok.
  destruct (find_delta_sound _ _ _ (block_ok_needed _ _ Hok Hin))
    as (i & Hi & Hb).
  exists (k + i). split.
  - change (Z.of_nat block_len) with 128 in Hi. lia.
  - rewrite delta_of_bucket, (bucket_congr _ _ (Hcong i)), Hb. lia.
Qed.

Lemma reachable_step dec a n ws t :
  t <> dec ->
  reachable dec a (S n) ws t ->
  reachable dec (a + increment) n
    (if wrong_of dec (out (a + increment)) =? dec then ws
     else Set_add (wrong_of dec (out (a + increment))) ws) t.
Proof.
  intros Hne [Hin|(k & Hk & Hw)].
  - left. destruct (_ =? dec); [exact Hin|]. apply Set_add_elem. now right.
  - destruct (Z.eq_dec k 1) as [->|Hk1].
    + left. rewrite Z.mul_1_l in Hw. rewrite Hw.
      destruct (Z.eqb_spec t dec); [contradiction|].
      apply Set_add_elem. now left.
    + right. exists (k - 1). split; [lia|].
      rewrite <- Hw. do 2 f_equal. ring.
Qed.

Lemma three_distinct_length (ws : list Z) t1 t2 t3 :
  t1 <> t2 -> t1 <> t3 -> t2 <> t3 ->
  t1 ∈ ws -> t2 ∈ ws -> t3 ∈ ws -> (3 <= length ws)%nat.
Proof.
  intros H12 H13 H23 H1 H2 H3.
  change 3%nat with (length [t1; t2; t3]).
  apply submseteq_length, NoDup_submseteq.
  - rewrite !NoDup_cons, !elem_of_cons.
    repeat split; try (intros H; decompose [or] H; try congruence);
      try (intros H; inversion H; fail); try apply NoDup_nil_2;
      match goal with H : _ ∈ [] |- _ => inversion H end.
  - intros x Hx. rewrite !elem_of_cons in Hx.
    destruct Hx as [->|[->|[->|Hx]]]; auto. inversion Hx.
Qed.

Section LoopTotality.

(** Three pairwise distinct wrong values for the decimal [dec]. *)
Variables dec t1 t2 t3 : Z.
Hypothesis H12 : t1 <> t2.
Hypothesis H13 : t1 <> t3.
Hypothesis H23 : t2 <> t3.
Hypothesis H1 : t1 <> dec.
Hypothesis H2 : t2 <> dec.
Hypothesis H3 : t3 <> dec.

(** If the three values are reachable within [n] draws, and the state
    stays exact that long, [n] iterations are enough. *)
Lemma wrong_loop_total : forall n a ws,
  - 2 ^ 53 < a -> a + Z.of_nat n * increment < 2 ^ 53 ->
  reachable dec a n ws t1 -> reachable dec a n ws t2 ->
  reachable dec a n ws t3 ->
  exists res, wrong_loop n dec a ws = Some res.
Proof using All.
  induction n as [|n IH]; intros a ws Hlo Hhi R1 R2 R3; cbn [wrong_loop];
    destruct (Nat.ltb_spec (length ws) 3) as [Hlt|Hge]; eauto.
  - exfalso.
    destruct R1 as [R1|(k & Hk & _)]; [|lia].
    destruct R2 as [R2|(k & Hk & _)]; [|lia].
    destruct R3 as [R3|(k & Hk & _)]; [|lia].
    pose proof (three_distinct_length ws t1 t2 t3 H12 H13 H23 R1 R2 R3). lia.
  - assert (Hinc : 0 < increment) by reflexivity.
    rewrite mulberry32_exact by lia.
    apply IH; try lia; now apply reachable_step.
Qed.

End LoopTotality.

Lemma draw_bits_state cs : forall a bs a',
  - 2 ^ 53 < a -> a + Z.of_nat (length cs) * increment < 2 ^ 53 ->
  draw_bits cs a = (bs, a') -> a' = a + Z.of_nat (length cs) * increment.
Proof.
  assert (Hinc : 0 < increment) by reflexivity.
  induction cs as [|c cs IH]; intros a bs a' Hlo Hhi; cbn [draw_bits length].
  - intros [_ <-]%pair_equal_spec. lia.
  - cbn [length] in Hhi. rewrite Nat2Z.inj_succ in *.
    assert (0 <= Z.of_nat (length cs) * increment) by nia.
    rewrite mulberry32_exact by lia.
    destruct (draw_bits cs (a + increment)) as [bs1 a2] eqn:E.
    intros [_ <-]%pair_equal_spec.
    rewrite (IH (a + increment) bs1 a2); [lia | lia | lia | exact E].
Qed.

Lemma draw_bits_exact s bs a :
  - 2 ^ 53 < s -> s + 4 * increment < 2 ^ 53 ->
  draw_bits [8; 4; 2; 1] s = (bs, a) -> a = s + 4 * increment.
Proof. intros Hlo Hhi H. now apply (draw_bits_state _ _ _ _ Hlo) in H. Qed.

(** For a decimal in range, three offsets give three distinct wrong values. *)
Lemma three_targets dec a :
  in_range dec ->
  exists t1 t2 t3,
    t1 <> t2 /\ t1 <> t3 /\ t2 <> t3 /\ t1 <> dec /\ t2 <> dec /\ t3 <> dec /\
    forall n ws, 4194431 <= Z.of_nat n ->
      reachable dec a n ws t1 /\ reachable dec a n ws t2 /\
      reachable dec a n ws t3.
Proof.
  intros Hr. unfold in_range in Hr.
  assert (Hreach : forall delta, delta ∈ needed_deltas ->
            0 <= dec + delta <= 15 ->
            forall n ws, 4194431 <= Z.of_nat n ->
              reachable dec a n ws (dec + delta)).
  { intros delta Hin Hd n ws Hn.
    destruct (every_delta_soon a delta Hin) as (k & Hk & Hdel).
    right. exists k. split; [lia|]. rewrite wrong_of_out, Hdel. lia. }
  assert (Hmem : forall delta, delta ∈ [1; 2; 3; -1; -2; -3] ->
            delta ∈ needed_deltas) by auto.
  destruct (Z_le_gt_dec dec 12) as [Hle|Hgt].
  - exists (dec + 1), (dec + 2), (dec + 3).
    repeat split; try lia; apply Hreach; try lia; apply Hmem;
      rewrite !elem_of_cons; auto 8.
  - exists (dec + -1), (dec + -2), (dec + -3).
    repeat split; try lia; apply Hreach; try lia; apply Hmem;
      rewrite !elem_of_cons; auto 8.
Qed.

Lemma buildInstanceFromSeed_total s n :
  - 2 ^ 53 < s < 2 ^ 50 -> 4194431 <= Z.of_nat n ->
  Z.of_nat n <= 4194431 ->
  exists inst, buildInstanceFromSeed n s = Some inst.
Proof.
  intros Hs Hn Hn'. assert (Hinc : increment = 1831565813) by reflexivity.
  unfold buildInstanceFromSeed.
  destruct (draw_bits [8; 4; 2; 1] s) as [bs a0] eqn:Eb.
  assert (Ea : a0 = s + 4 * increment)
    by (apply (draw_bits_exact s bs a0); [lia | lia | exact Eb]).
  destruct (draw_bits_spec _ _ _ _ Eb) as [Hbl Hbf].
  set (dec := reduce_from 0 [8; 4; 2; 1] bs 0).
  assert (Hr : in_range dec).
  { unfold dec. rewrite reduce_from_dot by (rewrite Hbl; simpl; lia).
    rewrite drop_0, Z.add_0_l.
    destruct bs as [|b0 [|b1 [|b2 [|b3 [|? ?]]]]]; try discriminate.
    now apply dot_product_range. }
  destruct (three_targets dec a0 Hr)
    as (t1 & t2 & t3 & H12 & H13 & H23 & H1 & H2 & H3 & Hreach).
  destruct (Hreach n [] Hn) as (R1 & R2 & R3).
  assert (Hlo : - 2 ^ 53 < a0) by lia.
  assert (Hhi : a0 + Z.of_nat n * increment < 2 ^ 53) by (rewrite Hinc in *; lia).
  destruct (wrong_loop_total dec t1 t2 t3 H12 H13 H23 H1 H2 H3 n a0 []
              Hlo Hhi R1 R2 R3) as [[ws a1] Hw].
  rewrite Hw.
  destruct (shuffle_from _ a1 (dec :: ws)) as [sh a2]. eauto.
Qed.

Lemma generator_total s :
  - 2 ^ 53 < s < 2 ^ 50 ->
  exists fuel inst,
    Z.of_nat fuel <= 4194431 /\ buildInstanceFromSeed fuel s = Some inst.
Proof.
  intros Hs.
  assert (Hn : Z.of_nat (Z.to_nat 4194431) = 4194431) by (apply Z2Nat.id; lia).
  destruct (buildInstanceFromSeed_total s (Z.to_nat 4194431) Hs) as [inst Hi];
    try lia.
  exists (Z.to_nat 4194431), inst. split; [lia | exact Hi].
Qed.

(** C8: for a seed between [-2^53] and [2^50] (every 32-bit seed, and every
    seed the handler draws) the generator returns: the distractor loop has
    collected its three wrong values after at most [2^22 + 127] draws, and
    the instance has four alternatives with pairwise distinct values. *)
Theorem generator_terminates s :
  - 2 ^ 53 < s < 2 ^ 50 ->
  exists fuel inst,
    Z.of_nat fuel <= 4194431 /\
    buildInstanceFromSeed fuel s = Some inst /\
    length (alternatives inst) = 4%nat /\
    NoDup (map value (alternatives inst)) /\
    seed inst = s.
Proof.
  intros Hs. destruct (generator_total s Hs) as (fuel & inst & Hf & Hi).
  exists fuel, inst.
  destruct (instance_values _ _ _ Hi) as (Hlen & Hnd).
  destruct (buildInstanceFromSeed_inv _ _ _ Hi)
    as (? & ? & ? & ? & ? & ? & ? & ? & ? & ? & ? & ? & ? & Hseed).
  repeat split; auto.
Qed.

(** A seed so large that adding the increment is absorbed by the rounding:
    the state never moves, every draw is 0, and every candidate is clamped
    back onto the decimal 0. *)
Lemma wrong_loop_stuck fuel : wrong_loop fuel 0 (2 ^ 90) [] = None.
Proof.
  assert (Hadd : JS.add (2 ^ 90) increment = 2 ^ 90) by (vm_compute; reflexivity).
  assert (Hw : wrong_of 0 (out (2 ^ 90)) = 0) by (vm_compute; reflexivity).
  induction fuel as [|fuel IH]; cbn [wrong_loop];
    change (length (@nil Z) <? 3)%nat with true; cbv iota; [reflexivity|].
  rewrite mulberry32_out, Hadd, Hw. exact IH.
Qed.

Lemma seed_2_90_never_returns :
  JS.fl64 (2 ^ 90) = 2 ^ 90 /\
  ~ exists fuel inst, buildInstanceFromSeed fuel (2 ^ 90) = Some inst.
Proof.
  split; [vm_compute; reflexivity|].
  intros (fuel & inst & H). unfold buildInstanceFromSeed in H.
  assert (Hb : draw_bits [8; 4; 2; 1] (2 ^ 90) = ([0; 0; 0; 0], 2 ^ 90))
    by (vm_compute; reflexivity).
  rewrite Hb in H.
  change (reduce_from 0 [8; 4; 2; 1] [0; 0; 0; 0] 0) with 0 in H.
  rewrite wrong_loop_stuck in H. cbv beta iota zeta in H. congruence.
Qed.

Lemma generator_terminates_witness :
  - 2 ^ 53 < 12345 < 2 ^ 50 /\
  exists fuel inst,
    Z.of_nat fuel <= 4194431 /\
    buildInstanceFromSeed fuel 12345 = Some inst /\
    length (alternatives inst) = 4%nat /\
    NoDup (map value (alternatives inst)) /\
    seed inst = 12345.
Proof. split; [lia | apply (generator_terminates 12345); lia]. Defined.

(** ** The shuffle, step by step *)

Lemma pick_out_le t i : (pick (out t) i <= i)%nat.
Proof.
  unfold pick. rewrite out_eq, Qfloor_scaled.
  pose proof (scramble_range t) as [H0 H1].
  assert (scramble t * (Z.of_nat i + 1) / 2 ^ 32 < Z.of_nat i + 1); [|lia].
  apply Z.div_lt_upper_bound; [lia | nia].
Qed.

Lemma swap_swapped i j v0 v1 v2 v3 :
  (i < 4)%nat -> (j <= i)%nat ->
  swap i j [v0; v1; v2; v3] = swapped i j [v0; v1; v2; v3].
Proof.
  intros Hi Hj.
  destruct i as [|[|[|[|?]]]]; destruct j as [|[|[|[|?]]]];
    try lia; reflexivity.
Qed.

Lemma swapped_length i j vs : length (swapped i j vs) = length vs.
Proof. unfold swapped. apply length_imap. Qed.

Lemma shuffle_steps r3 r2 r1 v0 v1 v2 v3 :
  (pick r3 3 <= 3)%nat -> (pick r2 2 <= 2)%nat -> (pick r1 1 <= 1)%nat ->
  swap 1 (pick r1 1) (swap 2 (pick r2 2) (swap 3 (pick r3 3) [v0; v1; v2; v3]))
  = fisher_yates4 r3 r2 r1 [v0; v1; v2; v3].
Proof.
  intros H3 H2 H1. unfold fisher_yates4.
  change (Z.to_nat (Qfloor (r3 * 4))) with (pick r3 3).
  change (Z.to_nat (Qfloor (r2 * 3))) with (pick r2 2).
  change (Z.to_nat (Qfloor (r1 * 2))) with (pick r1 1).
  generalize dependent (pick r3 3). generalize dependent (pick r2 2).
  generalize dependent (pick r1 1). intros j1 H1 j2 H2 j3 H3.
  rewrite (swap_swapped 3 j3) by lia.
  set (l3 := swapped 3 _ _).
  assert (Hl3 : length l3 = 4%nat) by apply swapped_length.
  destruct l3 as [|x0 [|x1 [|x2 [|x3 [|? ?]]]]]; try discriminate.
  rewrite (swap_swapped 2 j2) by lia.
  set (l2 := swapped 2 _ _).
  assert (Hl2 : length l2 = 4%nat) by apply swapped_length.
  destruct l2 as [|y0 [|y1 [|y2 [|y3 [|? ?]]]]]; try discriminate.
  now rewrite (swap_swapped 1 j1) by lia.
Qed.

Lemma shuffle_from_3 a v0 v1 v2 v3 :
  let a3 := JS.add a increment in
  let a2 := JS.add a3 increment in
  let a1 := JS.add a2 increment in
  shuffle_from 3 a [v0; v1; v2; v3]
  = (fisher_yates4 (out a3) (out a2) (out a1) [v0; v1; v2; v3], a1).
Proof.
  intros a3 a2 a1. cbn [shuffle_from].
  rewrite (mulberry32_out a). fold a3.
  rewrite (mulberry32_out a3). fold a2.
  rewrite (mulberry32_out a2). fold a1.
  f_equal. apply shuffle_steps; apply pick_out_le.
Qed.

(** In a run that returns, the list that is shuffled is
    [decimal, wrong1, wrong2, wrong3]; the shuffle takes one draw per index,
    for 3, 2 and 1, and swaps that index with [floor(draw * (index + 1))];
    the letters A to D label the shuffled values in order. *)
Lemma candidates_then_fisher_yates_returned fuel s inst :
  buildInstanceFromSeed fuel s = Some inst ->
  exists bs a0 w1 w2 w3 a r3 a3 r2 a2 r1 a1,
    draw_bits [8; 4; 2; 1] s = (bs, a0) /\
    wrong_loop fuel (decimal inst) a0 [] = Some ([w1; w2; w3], a) /\
    mulberry32 a = (r3, a3) /\
    mulberry32 a3 = (r2, a2) /\
    mulberry32 a2 = (r1, a1) /\
    map value (alternatives inst)
    = fisher_yates4 r3 r2 r1 [decimal inst; w1; w2; w3] /\
    map label (alternatives inst) = ["A"; "B"; "C"; "D"]%string /\
    map id (alternatives inst) = ["opt0"; "opt1"; "opt2"; "opt3"]%string.
Proof.
  intros H.
  destruct (buildInstanceFromSeed_inv _ _ _ H)
    as (bs & a0 & ws & a & sh & a1 & Hb & Hw & Hs & _ & _ & _ & Ha & _).
  destruct (wrong_loop_inv _ _ _ _ _ _ Hw (wrong_inv_nil _)) as [_ Hlen].
  destruct ws as [|w1 [|w2 [|w3 [|? ?]]]]; try discriminate.
  rewrite shuffle_from_3 in Hs. cbv zeta in Hs.
  set (a3 := JS.add a increment) in *.
  set (a2 := JS.add a3 increment) in *.
  set (a1' := JS.add a2 increment) in *.
  exists bs, a0, w1, w2, w3, a, (out a3), a3, (out a2), a2, (out a1'), a1'.
  split; [exact Hb|]. split; [exact Hw|].
  split; [apply mulberry32_out|]. split; [apply mulberry32_out|].
  split; [apply mulberry32_out|].
  assert (Hsh : sh = fisher_yates4 (out a3) (out a2) (out a1')
                       [decimal inst; w1; w2; w3]) by congruence.
  assert (Hl : length sh = 4%nat).
  { rewrite Hsh. unfold fisher_yates4. now rewrite !swapped_length. }
  split; [|split].
  - rewrite Ha, make_alternatives_value by (rewrite Hl; simpl; lia).
    rewrite drop_0, take_ge by (rewrite Hl; simpl; lia). exact Hsh.
  - rewrite Ha. apply make_alternatives_label.
  - rewrite Ha. reflexivity.
Qed.

(** ** The handler *)

Lemma payload_alternatives_instance meta inst :
  payload_alternatives
    (JObject [("meta", meta); ("instance", json_of_instance inst)]%string)
  = map json_of_alternative (alternatives inst).
Proof. reflexivity. Qed.

Lemma handler_json fuel req e status payload e' :
  handler fuel req e = Some (Json status payload, e') ->
  exists inst,
    method req = "GET"%string /\
    buildInstanceFromSeed fuel (upcoming e (drawn e)) = Some inst /\
    status = 200 /\
    payload = JObject [("meta", JObject [("titulo", JString "Contagem (plugged)")]);
                       ("instance", json_of_instance inst)]%string /\
    drawn e' = S (drawn e).
Proof.
  unfold handler, random_seed.
  destruct (String.eqb_spec (method req) "GET") as [Hm|Hm]; cbn [negb];
    [|discriminate].
  destruct (buildInstanceFromSeed fuel (upcoming e (drawn e))) as [inst|];
    [|discriminate].
  intros [= <- <- <-]. exists inst. repeat split; auto.
Qed.

(** C6: whenever the handler answers with a JSON payload, each of the four
    serialised alternatives carries a boolean [correct] field. *)
Theorem payload_carries_correct fuel req e status payload e' :
  handler fuel req e = Some (Json status payload, e') ->
  length (payload_alternatives payload) = 4%nat /\
  Forall (fun alt => has_boolean_field "correct" alt = true)
         (payload_alternatives payload).
Proof.
  intros H. destruct (handler_json _ _ _ _ _ _ H) as (inst & _ & Hi & _ & -> & _).
  rewrite payload_alternatives_instance.
  destruct (instance_values _ _ _ Hi) as [Hlen _].
  split; [now rewrite length_map|].
  apply Forall_fmap, Forall_forall. intros alt _. reflexivity.
Qed.

Lemma payload_carries_correct_witness :
  handler 100 {| method := "GET"; query := [] |} (constant_entropy 12345)
  = Some (Json 200
            (JObject [("meta", JObject [("titulo", JString "Contagem (plugged)")]);
                      ("instance", json_of_instance instance_12345)]%string),
          {| upcoming := fun _ => 12345; drawn := 1 |}) /\
  length (payload_alternatives
            (JObject [("meta", JObject [("titulo", JString "Contagem (plugged)")]);
                      ("instance", json_of_instance instance_12345)]%string))
  = 4%nat /\
  Forall (fun alt => has_boolean_field "correct" alt = true)
    (payload_alternatives
       (JObject [("meta", JObject [("titulo", JString "Contagem (plugged)")]);
                 ("instance", json_of_instance instance_12345)]%string)).
Proof.
  split; [vm_compute; reflexivity|].
  apply (payload_carries_correct 100 {| method := "GET"; query := [] |}
           (constant_entropy 12345) 200 _
           {| upcoming := fun _ => 12345; drawn := 1 |}).
  vm_compute; reflexivity.
Defined.

(** C7: the handler never reads the query: a request with [?seed=...] is
    answered as the same request without it, from the seed that the entropy
    source yields. *)
Theorem handler_ignores_seed_parameter :
  (forall fuel m q e,
      handler fuel {| method := m; query := q |} e
      = handler fuel {| method := m; query := [] |} e) /\
  (exists payload inst e',
      handler 100 {| method := "GET"; query := [("seed", "123")]%string |}
        (constant_entropy 777)
      = Some (Json 200 payload, e') /\
      get "instance" payload = Some inst /\
      get "seed" inst = Some (JNumber 777)).
Proof.
  split; [reflexivity|].
  eexists _, _, _. split; [vm_compute; reflexivity|].
  split; reflexivity.
Qed.

(** C10: a request whose method is not GET is answered with status 405 and
    the text body; no seed is drawn and no instance is built. *)
Theorem non_get_is_405 fuel req e :
  method req <> "GET"%string ->
  handler fuel req e = Some (End 405 "Method Not Allowed", e).
Proof.
  intros Hm. unfold handler.
  destruct (String.eqb_spec (method req) "GET"); [contradiction | reflexivity].
Qed.

Lemma non_get_is_405_witness :
  "POST"%string <> "GET"%string /\
  handler 0 {| method := "POST"; query := [("seed", "123")]%string |}
    (constant_entropy 12345)
  = Some (End 405 "Method Not Allowed", constant_entropy 12345).
Proof.
  split; [discriminate|].
  apply (non_get_is_405 0 {| method := "POST"; query := [("seed", "123")]%string |}).
  discriminate.
Defined.

(** A GET request is always answered when the drawn seed is below [10^9]. *)
Lemma handler_get_responds req e :
  method req = "GET"%string ->
  0 <= upcoming e (drawn e) < 10 ^ 9 ->
  exists fuel payload e', handler fuel req e = Some (Json 200 payload, e').
Proof.
  intros Hm Hs.
  destruct (generator_total (upcoming e (drawn e)) ltac:(lia)) as (fuel & inst & _ & Hi).
  exists fuel. unfold handler, random_seed. rewrite Hm, Hi.
  cbn [String.eqb negb]. eauto.
Qed.

(** ** Witnesses at seed 12345 *)


(** ** Ranges of a draw *)

Lemma out_unit t : (0 <= out t)%Q /\ (out t < 1)%Q.
Proof.
  pose proof (scramble_range t) as [H0 H1]. rewrite out_eq.
  cbv [Qle Qlt Qdiv Qmult Qinv inject_Z Qnum Qden].
  change (Z.pos (1 * 4294967296)) with (2 ^ 32). lia.
Qed.

Lemma delta_of_range t : -4 <= delta_of t <= 3.
Proof.
  rewrite delta_of_bucket. unfold bucket.
  pose proof (scramble_range t) as [H0 H1].
  rewrite Z.shiftr_div_pow2 by lia.
  assert (0 <= scramble t / 2 ^ 29 < 8); [|lia].
  split; [apply Z.div_pos; lia | apply Z.div_lt_upper_bound; lia].
Qed.

(** X1: every value the stream draws, from any state, lies in [0, 1). *)
Theorem draw_in_unit_interval a :
  (0 <= fst (mulberry32 a))%Q /\ (fst (mulberry32 a) < 1)%Q.
Proof. rewrite mulberry32_out. cbn [fst]. apply out_unit. Qed.

Lemma fst_mulberry32 a : fst (mulberry32 a) = out (JS.add a increment).
Proof. now rewrite mulberry32_out. Qed.

(** X2: the offset [Math.floor((rand() - 0.5) * 8)] of any draw is one of
    -4, ..., 3, as the comment in the loop says. *)
Theorem delta_between_minus4_and_3 a :
  -4 <= Qfloor ((fst (mulberry32 a) - 0.5) * 8) <= 3.
Proof.
  rewrite fst_mulberry32, out_eq, Qfloor_delta.
  pose proof (scramble_range (JS.add a increment)) as [H0 H1].
  assert (0 <= scramble (JS.add a increment) / 2 ^ 29 < 8); [|lia].
  split; [apply Z.div_pos; lia | apply Z.div_lt_upper_bound; lia].
Qed.

(** X3: the index [Math.floor(rand() * (i + 1))] that the shuffle swaps
    with position [i] is never beyond [i]. *)
Theorem shuffle_index_in_range a i :
  (pick (fst (mulberry32 a)) i <= i)%nat.
Proof. rewrite mulberry32_out. cbn [fst]. exact (pick_out_le _ i). Qed.

(** ** Bits *)

(** X4: a returned instance has four bits, each 0 or 1, and they are the
    binary digits of its decimal, most significant first. *)
Theorem bits_are_binary_digits fuel s inst :
  buildInstanceFromSeed fuel s = Some inst ->
  length (bits inst) = 4%nat /\
  Forall (fun b => b = 0 \/ b = 1) (bits inst) /\
  bits inst = binary4 (decimal inst).
Proof.
  intros H.
  destruct (buildInstanceFromSeed_inv _ _ _ H)
    as (bs & a0 & ws & a1 & sh & a2 & Hb & _ & _ & Hd & _ & Hbits & _).
  destruct (draw_bits_spec _ _ _ _ Hb) as [Hbl Hbf].
  rewrite Hbits. split; [exact Hbl|]. split; [exact Hbf|].
  rewrite Hd, reduce_from_dot by (rewrite Hbl; simpl; lia).
  rewrite drop_0, Z.add_0_l.
  destruct bs as [|b0 [|b1 [|b2 [|b3 [|? ?]]]]]; try discriminate.
  repeat (apply Forall_cons_1 in Hbf; destruct Hbf as [? Hbf]).
  repeat match goal with H : _ = 0 \/ _ = 1 |- _ => destruct H as [->| ->] end;
    reflexivity.
Qed.

(** ** Distractors *)

Lemma wrong_of_near dec t : in_range dec -> near dec (wrong_of dec (out t)).
Proof.
  unfold in_range, near. intros Hr. rewrite wrong_of_out.
  pose proof (delta_of_range t). lia.
Qed.

Lemma wrong_loop_near fuel dec : forall a ws ws' a',
  in_range dec ->
  wrong_loop fuel dec a ws = Some (ws', a') ->
  Forall (near dec) ws -> Forall (near dec) ws'.
Proof.
  induction fuel as [|fuel IH]; cbn [wrong_loop]; intros a ws ws' a' Hr H Hall.
  - destruct (length ws <? 3)%nat; [discriminate|].
    inversion H; subst. exact Hall.
  - destruct (length ws <? 3)%nat; [|inversion H; subst; exact Hall].
    rewrite mulberry32_out in H.
    eapply IH; [exact Hr | exact H |].
    destruct (_ =? dec); [exact Hall|].
    apply Forall_forall. intros x Hx. apply Set_add_elem in Hx as [->|Hx].
    + now apply wrong_of_near.
    + rewrite Forall_forall in Hall. auto.
Qed.

Lemma instance_near fuel s inst :
  buildInstanceFromSeed fuel s = Some inst ->
  exists ws,
    map value (alternatives inst) ≡ₚ decimal inst :: ws /\
    NoDup (decimal inst :: ws) /\ length ws = 3%nat /\
    in_range (decimal inst) /\
    Forall (fun w => near (decimal inst) w /\ in_range w) ws.
Proof.
  intros H.
  destruct (buildInstanceFromSeed_inv _ _ _ H)
    as (bs & a0 & ws & a1 & sh & a2 & _ & Hw & Hs & _ & _ & _ & Ha & _).
  destruct (instance_facts _ _ _ H) as (_ & _ & _ & _ & Hr & _).
  destruct (wrong_loop_inv _ _ _ _ _ _ Hw (wrong_inv_nil _))
    as [(Hnd & Hall & _) Hlen].
  pose proof (wrong_loop_near _ _ _ _ _ _ Hr Hw (Forall_nil_2 _)) as Hnear.
  destruct (instance_values _ _ _ H) as [_ Hnd4].
  pose proof (shuffle_from_Permutation _ _ _ _ _ Hs) as Hq.
  assert (Hp : map value (alternatives inst) ≡ₚ decimal inst :: ws).
  { rewrite Ha, make_alternatives_value
      by (rewrite (Permutation_length Hq); simpl; lia).
    rewrite drop_0, take_ge by (rewrite (Permutation_length Hq); simpl; lia).
    exact Hq. }
  exists ws. split; [exact Hp|]. split; [now rewrite <- Hp|].
  split; [exact Hlen|]. split; [exact Hr|].
  rewrite Forall_forall in Hall, Hnear. apply Forall_forall.
  intros x Hx. split; [auto | now apply Hall].
Qed.

(** X5: every alternative value of a returned instance lies between
    [decimal - 4] and [decimal + 3]. *)
Theorem alternatives_near_decimal fuel s inst :
  buildInstanceFromSeed fuel s = Some inst ->
  Forall (fun alt => decimal inst - 4 <= value alt <= decimal inst + 3)
         (alternatives inst).
Proof.
  intros H.
  destruct (instance_near _ _ _ H) as (ws & Hp & _ & _ & _ & Hall).
  apply Forall_forall. intros alt Hin.
  assert (Hv : value alt ∈ decimal inst :: ws).
  { rewrite <- Hp. apply list_elem_of_fmap. eauto. }
  apply elem_of_cons in Hv as [->|Hv]; [lia|].
  rewrite Forall_forall in Hall. now apply Hall.
Qed.

(** X6: when all four bits are 0 the alternatives are always 0, 1, 2 and 3
    in some order: below 0 every candidate is clamped onto the decimal. *)
Theorem zero_instance_alternatives fuel s inst :
  buildInstanceFromSeed fuel s = Some inst ->
  decimal inst = 0 ->
  map value (alternatives inst) ≡ₚ [0; 1; 2; 3].
Proof.
  intros H Hz.
  destruct (instance_near _ _ _ H) as (ws & Hp & Hnd & Hlen & _ & Hall).
  rewrite Hp. rewrite Hz in *.
  apply submseteq_length_Permutation; [|simpl; lia].
  apply NoDup_submseteq; [exact Hnd|].
  intros x Hx. apply elem_of_cons in Hx as [->|Hx]; [rewrite !elem_of_cons; auto|].
  apply NoDup_cons in Hnd as [Hnot _].
  rewrite Forall_forall in Hall. destruct (Hall _ Hx) as [Hn Hr].
  unfold near, in_range in *.
  assert (x <> 0) by (intros ->; contradiction).
  assert (Hx3 : x = 1 \/ x = 2 \/ x = 3) by lia.
  rewrite !elem_of_cons. tauto.
Qed.

(** ** Seeds that agree modulo [2^32] *)

Lemma out_congr x y : x mod 2 ^ 32 = y mod 2 ^ 32 -> out x = out y.
Proof. intros H. unfold out. now rewrite (scramble_congr x y H). Qed.

Lemma shift_mod x d : d mod 2 ^ 32 = 0 -> (x + d) mod 2 ^ 32 = x mod 2 ^ 32.
Proof.
  intros Hd. apply Z.mod_divide in Hd; [|lia]. destruct Hd as [c ->].
  apply Z_mod_plus_full.
Qed.

Section Shift.

(** An offset between two states that the draws cannot see. *)
Variable d : Z.
Hypothesis Hd : d mod 2 ^ 32 = 0.

Lemma mulberry32_shift a :
  - 2 ^ 53 < a + increment < 2 ^ 53 ->
  - 2 ^ 53 < a + d + increment < 2 ^ 53 ->
  mulberry32 (a + d) = (out (a + increment), a + increment + d).
Proof using Hd.
  intros Ha Hb. rewrite mulberry32_exact by lia.
  replace (a + d + increment) with (a + increment + d) by ring.
  now rewrite (out_congr _ _ (shift_mod (a + increment) d Hd)).
Qed.

Lemma draw_bits_shift cs : forall a bs a',
  - 2 ^ 53 < a -> a + Z.of_nat (length cs) * increment < 2 ^ 53 ->
  - 2 ^ 53 < a + d -> a + d + Z.of_nat (length cs) * increment < 2 ^ 53 ->
  draw_bits cs a = (bs, a') -> draw_bits cs (a + d) = (bs, a' + d).
Proof using Hd.
  assert (Hinc : 0 < increment) by reflexivity.
  induction cs as [|c cs IH]; intros a bs a' Hlo Hhi Hlo' Hhi';
    cbn [draw_bits length].
  - intros [<- <-]%pair_equal_spec. reflexivity.
  - cbn [length] in Hhi, Hhi'. rewrite Nat2Z.inj_succ in *.
    assert (0 <= Z.of_nat (length cs) * increment) by nia.
    rewrite mulberry32_shift by lia. rewrite mulberry32_exact by lia.
    destruct (draw_bits cs (a + increment)) as [bs1 a2] eqn:E.
    rewrite (IH (a + increment) bs1 a2); [|lia|lia|lia|lia|exact E].
    intros [<- <-]%pair_equal_spec. reflexivity.
Qed.

Lemma wrong_loop_shift dec fuel : forall a ws ws' a',
  - 2 ^ 53 < a -> a + Z.of_nat fuel * increment < 2 ^ 53 ->
  - 2 ^ 53 < a + d -> a + d + Z.of_nat fuel * increment < 2 ^ 53 ->
  wrong_loop fuel dec a ws = Some (ws', a') ->
  wrong_loop fuel dec (a + d) ws = Some (ws', a' + d) /\
  a <= a' <= a + Z.of_nat fuel * increment.
Proof using Hd.
  assert (Hinc : 0 < increment) by reflexivity.
  induction fuel as [|fuel IH]; intros a ws ws' a' Hlo Hhi Hlo' Hhi';
    cbn [wrong_loop].
  - destruct (length ws <? 3)%nat; [discriminate|].
    intros [= <- <-]. split; [reflexivity | lia].
  - rewrite Nat2Z.inj_succ in *.
    assert (0 <= Z.of_nat fuel * increment) by nia.
    destruct (length ws <? 3)%nat; [|intros [= <- <-]; split; [reflexivity | lia]].
    rewrite mulberry32_shift by lia. rewrite mulberry32_exact by lia.
    intros H'. apply IH in H'; [|lia|lia|lia|lia].
    destruct H' as [H' Hb]. split; [exact H' | lia].
Qed.

Lemma shuffle_from_shift i : forall a vs sh a',
  - 2 ^ 53 < a -> a + Z.of_nat i * increment < 2 ^ 53 ->
  - 2 ^ 53 < a + d -> a + d + Z.of_nat i * increment < 2 ^ 53 ->
  shuffle_from i a vs = (sh, a') ->
  shuffle_from i (a + d) vs = (sh, a' + d).
Proof using Hd.
  assert (Hinc : 0 < increment) by reflexivity.
  induction i as [|i IH]; intros a vs sh a' Hlo Hhi Hlo' Hhi';
    cbn [shuffle_from].
  - intros [<- <-]%pair_equal_spec. reflexivity.
  - rewrite Nat2Z.inj_succ in *.
    assert (0 <= Z.of_nat i * increment) by nia.
    rewrite mulberry32_shift by lia. rewrite mulberry32_exact by lia.
    apply IH; lia.
Qed.

End Shift.

Lemma buildInstanceFromSeed_shift d fuel s inst :
  d mod 2 ^ 32 = 0 ->
  - 2 ^ 53 < s -> s + (Z.of_nat fuel + 7) * increment < 2 ^ 53 ->
  - 2 ^ 53 < s + d -> s + d + (Z.of_nat fuel + 7) * increment < 2 ^ 53 ->
  buildInstanceFromSeed fuel s = Some inst ->
  buildInstanceFromSeed fuel (s + d)
  = Some {| cards := cards inst; bits := bits inst; decimal := decimal inst;
            alternatives := alternatives inst; seed := s + d |}.
Proof.
  intros Hd Hlo Hhi Hlo' Hhi'. assert (Hinc : 0 < increment) by reflexivity.
  assert (Hf : 0 <= Z.of_nat fuel * increment) by nia.
  unfold buildInstanceFromSeed.
  destruct (draw_bits [8; 4; 2; 1] s) as [bs a0] eqn:Eb.
  assert (Ea : a0 = s + 4 * increment)
    by (apply (draw_bits_exact s bs a0); [lia | lia | exact Eb]).
  assert (Eb' : draw_bits [8; 4; 2; 1] (s + d) = (bs, a0 + d)).
  { apply (draw_bits_shift d Hd); [lia | cbn [length]; lia | lia
                                   | cbn [length]; lia | exact Eb]. }
  rewrite Eb'.
  set (dec := reduce_from 0 [8; 4; 2; 1] bs 0).
  destruct (wrong_loop fuel dec a0 []) as [[ws a1]|] eqn:Ew; [|discriminate].
  destruct (wrong_loop_inv _ _ _ _ _ _ Ew (wrong_inv_nil _)) as [_ Hlen].
  destruct (wrong_loop_shift d Hd dec fuel a0 [] ws a1) as [Ew' Hb];
    [lia | lia | lia | lia | exact Ew |].
  rewrite Ew'. cbn [length]. rewrite Hlen. change (4 - 1)%nat with 3%nat.
  destruct (shuffle_from 3 a1 (dec :: ws)) as [sh a2] eqn:Es.
  rewrite (shuffle_from_shift d Hd 3 a1 (dec :: ws) sh a2);
    [|lia|lia|lia|lia|exact Es].
  intros [= <-]. reflexivity.
Qed.

Lemma buildInstanceFromSeed_agree s f1 f2 i1 i2 :
  buildInstanceFromSeed f1 s = Some i1 ->
  buildInstanceFromSeed f2 s = Some i2 -> i1 = i2.
Proof.
  intros H1 H2.
  apply (buildInstanceFromSeed_mono _ f2) in H1.
  apply (buildInstanceFromSeed_mono _ f1) in H2.
  rewrite (Nat.add_comm f2 f1) in H2. congruence.
Qed.

(** X7: between [-2^53] and [2^50], two seeds that agree modulo [2^32] give
    the same bits, the same decimal and the same alternatives. *)
Theorem congruent_seeds_same_instance s1 s2 f1 f2 i1 i2 :
  - 2 ^ 53 < s1 < 2 ^ 50 -> - 2 ^ 53 < s2 < 2 ^ 50 ->
  s1 mod 2 ^ 32 = s2 mod 2 ^ 32 ->
  buildInstanceFromSeed f1 s1 = Some i1 ->
  buildInstanceFromSeed f2 s2 = Some i2 ->
  bits i1 = bits i2 /\ decimal i1 = decimal i2 /\
  alternatives i1 = alternatives i2.
Proof.
  intros Hs1 Hs2 Hc H1 H2.
  destruct (generator_total s1 Hs1) as (fuel & inst & Hf & Hi).
  assert (inst = i1) as -> by (eapply buildInstanceFromSeed_agree; eauto).
  assert (Hinc : increment = 1831565813) by reflexivity.
  assert (Hd : (s2 - s1) mod 2 ^ 32 = 0).
  { rewrite Zminus_mod, Hc, Z.sub_diag. reflexivity. }
  pose proof (buildInstanceFromSeed_shift (s2 - s1) fuel s1 i1 Hd) as Hsh.
  replace (s1 + (s2 - s1)) with s2 in Hsh by ring.
  rewrite Hinc in Hsh.
  specialize (Hsh ltac:(lia) ltac:(lia) ltac:(lia) ltac:(lia) Hi).
  pose proof (buildInstanceFromSeed_agree _ _ _ _ _ Hsh H2) as <-.
  auto.
Qed.

(** ** Seeds beyond the exact range *)

Lemma fl64_absorbs s :
  2 ^ 84 <= s -> JS.fl64 s = s ->
  JS.fl64 (s + increment) = s /\ s mod 2 ^ 32 = 0.
Proof.
  intros Hs Hrep.
  assert (Hinc : increment = 1831565813) by reflexivity.
  assert (HL : 84 <= Z.log2 s).
  { change 84 with (Z.log2 (2 ^ 84)). now apply Z.log2_le_mono. }
  destruct (Z.log2_spec s ltac:(lia)) as [HL0 HL1].
  set (L := Z.log2 s) in *. set (e := L - 52).
  assert (He : 32 <= e) by (unfold e; lia).
  assert (HE : 2 ^ 32 <= 2 ^ e) by (apply Z.pow_le_mono_r; lia).
  assert (HLe : 2 ^ L = 2 ^ 52 * 2 ^ e).
  { rewrite <- Z.pow_add_r by lia. f_equal. unfold e. lia. }
  assert (HLe1 : 2 ^ Z.succ L = 2 ^ 53 * 2 ^ e).
  { rewrite <- Z.pow_add_r by lia. f_equal. unfold e. lia. }
  assert (Hhalf : 2 ^ e = 2 * 2 ^ (e - 1)).
  { rewrite <- (Z.pow_succ_r 2 (e - 1)) by lia. f_equal. lia. }
  assert (Hk : exists k, s = k * 2 ^ e).
  { unfold JS.fl64 in Hrep. cbv zeta in Hrep.
    rewrite Z.abs_eq in Hrep by lia.
    destruct (Z.ltb_spec s (2 ^ 53)); [lia|].
    fold L in Hrep. fold e in Hrep.
    rewrite Z.sgn_pos, Z.mul_1_l, Z.shiftl_mul_pow2 in Hrep by lia.
    eexists. symmetry. exact Hrep. }
  destruct Hk as [k Hk].
  assert (Hk53 : k < 2 ^ 53) by nia.
  assert (Hk0 : 0 < k) by nia.
  assert (Hlog : Z.log2 (s + increment) = L).
  { apply Z.log2_unique; [lia|]. replace (L + 1) with (Z.succ L) by lia.
    rewrite HLe1. nia. }
  split.
  - unfold JS.fl64. cbv zeta. rewrite Z.abs_eq by lia.
    destruct (Z.ltb_spec (s + increment) (2 ^ 53)); [lia|].
    rewrite Hlog. fold e.
    rewrite Z.sgn_pos, Z.mul_1_l by lia.
    rewrite !Z.shiftl_mul_pow2, Z.shiftr_div_pow2 by lia.
    assert (Hq : (s + increment) / 2 ^ e = k).
    { rewrite Hk, Z.div_add_l by lia. rewrite Z.div_small by lia. lia. }
    rewrite Hq.
    destruct (Z.ltb_spec (s + increment - k * 2 ^ e) (1 * 2 ^ (e - 1)));
      [cbn [orb]; lia | nia].
  - rewrite Hk.
    replace (2 ^ e) with (2 ^ (e - 32) * 2 ^ 32)
      by (rewrite <- Z.pow_add_r by lia; f_equal; lia).
    rewrite Z.mul_assoc. apply Z_mod_mult.
Qed.

Lemma stuck_stream s :
  2 ^ 84 <= s -> JS.fl64 s = s -> mulberry32 s = (out 0, s).
Proof.
  intros Hs Hrep. destruct (fl64_absorbs s Hs Hrep) as [Hadd Hmod].
  rewrite mulberry32_out. unfold JS.add. rewrite Hadd.
  now rewrite (out_congr s 0) by (rewrite Hmod; reflexivity).
Qed.

Lemma wrong_loop_stuck_at s fuel :
  mulberry32 s = (out 0, s) -> wrong_loop fuel 0 s [] = None.
Proof.
  intros Hm.
  assert (Hw : wrong_of 0 (out 0) = 0) by (vm_compute; reflexivity).
  induction fuel as [|fuel IH]; cbn [wrong_loop];
    change (length (@nil Z) <? 3)%nat with true; cbv iota; [reflexivity|].
  rewrite Hm, Hw. exact IH.
Qed.

(** X8: for every integer seed from [2^84] on that a double can hold, the
    state never advances, every draw is 0, and the generator returns for no
    iteration budget. *)
Theorem huge_seed_never_returns s fuel :
  2 ^ 84 <= s -> JS.fl64 s = s ->
  buildInstanceFromSeed fuel s = None.
Proof.
  intros Hs Hrep. pose proof (stuck_stream s Hs Hrep) as Hm.
  assert (Hb : Qgtb (out 0) 0.5 = false) by (vm_compute; reflexivity).
  assert (Hbits : draw_bits [8; 4; 2; 1] s = ([0; 0; 0; 0], s)).
  { cbn [draw_bits]. repeat (rewrite Hm; cbv beta iota zeta).
    now rewrite Hb. }
  unfold buildInstanceFromSeed. rewrite Hbits.
  change (reduce_from 0 [8; 4; 2; 1] [0; 0; 0; 0] 0) with 0.
  now rewrite (wrong_loop_stuck_at s fuel Hm).
Qed.

Lemma huge_seed_never_returns_witness :
  2 ^ 84 <= 2 ^ 84 + 2 ^ 40 /\ JS.fl64 (2 ^ 84 + 2 ^ 40) = 2 ^ 84 + 2 ^ 40 /\
  buildInstanceFromSeed 1000 (2 ^ 84 + 2 ^ 40) = None.
Proof.
  split; [lia|]. split; [vm_compute; reflexivity|].
  apply (huge_seed_never_returns (2 ^ 84 + 2 ^ 40) 1000);
    [lia | vm_compute; reflexivity].
Defined.

(** ** The handler, continued *)

Lemma decimal_occurs_once fuel s inst :
  buildInstanceFromSeed fuel s = Some inst ->
  count_occ Z.eq_dec (map value (alternatives inst)) (decimal inst) = 1%nat.
Proof.
  intros H.
  destruct (instance_facts _ _ _ H) as (ws & Hp & (_ & Hall & _) & _).
  rewrite (proj1 (Permutation_count_occ Z.eq_dec _ _) Hp).
  cbn [count_occ].
  destruct (Z.eq_dec (decimal inst) (decimal inst)); [|contradiction].
  f_equal. apply count_occ_not_In. intros Hin.
  rewrite Forall_forall in Hall. apply list_elem_of_In, Hall in Hin. tauto.
Qed.

Lemma json_value_count d alts :
  length (List.filter (json_value_is d) (map json_of_alternative alts))
  = count_occ Z.eq_dec (map value alts) d.
Proof.
  induction alts as [|alt alts IH]; [reflexivity|].
  cbn [map List.filter count_occ].
  change (json_value_is d (json_of_alternative alt)) with (value alt =? d).
  destruct (Z.eqb_spec (value alt) d); destruct (Z.eq_dec (value alt) d);
    try contradiction; cbn [length]; congruence.
Qed.

(** X9: a GET request whose drawn seed is below [10^9] is answered, with
    status 200, by the instance of exactly that seed, with four
    alternatives; one draw of the entropy source is consumed. *)
Theorem get_request_answered req e :
  method req = "GET"%string ->
  0 <= upcoming e (drawn e) < 10 ^ 9 ->
  exists fuel payload inst e',
    handler fuel req e = Some (Json 200 payload, e') /\
    drawn e' = S (drawn e) /\
    get "instance" payload = Some inst /\
    get "seed" inst = Some (JNumber (upcoming e (drawn e))) /\
    length (payload_alternatives payload) = 4%nat.
Proof.
  intros Hm Hs.
  destruct (generator_total (upcoming e (drawn e)) ltac:(lia))
    as (fuel & inst & _ & Hi).
  destruct (instance_values _ _ _ Hi) as [Hlen _].
  destruct (buildInstanceFromSeed_inv _ _ _ Hi)
    as (? & ? & ? & ? & ? & ? & ? & ? & ? & ? & ? & ? & ? & Hseed).
  exists fuel. unfold handler, random_seed. rewrite Hm, Hi.
  cbn [String.eqb negb]. eexists _, _, _. split; [reflexivity|].
  split; [reflexivity|]. split; [reflexivity|].
  split; [cbn; now rewrite Hseed|].
  rewrite payload_alternatives_instance. now rewrite length_map.
Qed.

(** X10: every JSON payload also carries the decimal itself, each
    serialised alternative is flagged [correct] exactly when its value is
    that decimal, and exactly one alternative has that value. *)
Theorem payload_reveals_answer fuel req e status payload e' :
  handler fuel req e = Some (Json status payload, e') ->
  exists inst d,
    get "instance" payload = Some inst /\
    get "decimal" inst = Some (JNumber d) /\
    Forall (fun alt => exists v,
                get "value" alt = Some (JNumber v) /\
                get "correct" alt = Some (JBool (v =? d)))
           (payload_alternatives payload) /\
    length (List.filter (json_value_is d) (payload_alternatives payload))
    = 1%nat.
Proof.
  intros H. destruct (handler_json _ _ _ _ _ _ H) as (inst & _ & Hi & _ & -> & _).
  exists (json_of_instance inst), (decimal inst).
  split; [reflexivity|]. split; [reflexivity|].
  rewrite payload_alternatives_instance.
  destruct (instance_facts _ _ _ Hi) as (_ & _ & _ & _ & _ & _ & Hc).
  split.
  - apply Forall_fmap, Forall_forall. intros alt Hin.
    rewrite Forall_forall in Hc. exists (value alt).
    split; [reflexivity|]. cbn. now rewrite (Hc _ Hin).
  - rewrite json_value_count. eapply decimal_occurs_once, Hi.
Qed.

(** ** Further witnesses *)

Lemma bits_are_binary_digits_witness :
  buildInstanceFromSeed 100 12345 = Some instance_12345 /\
  length (bits instance_12345) = 4%nat /\
  Forall (fun b => b = 0 \/ b = 1) (bits instance_12345) /\
  bits instance_12345 = binary4 (decimal instance_12345).
Proof.
  split; [vm_compute; reflexivity|].
  apply (bits_are_binary_digits 100 12345). vm_compute; reflexivity.
Defined.

Lemma alternatives_near_decimal_witness :
  buildInstanceFromSeed 100 12345 = Some instance_12345 /\
  Forall (fun alt => decimal instance_12345 - 4 <= value alt
                     <= decimal instance_12345 + 3)
         (alternatives instance_12345).
Proof.
  split; [vm_compute; reflexivity|].
  apply (alternatives_near_decimal 100 12345). vm_compute; reflexivity.
Defined.

Lemma zero_instance_alternatives_witness :
  buildInstanceFromSeed 100 0 = Some instance_0 /\
  decimal instance_0 = 0 /\
  map value (alternatives instance_0) ≡ₚ [0; 1; 2; 3].
Proof.
  split; [vm_compute; reflexivity|]. split; [reflexivity|].
  apply (zero_instance_alternatives 100 0);
    [vm_compute; reflexivity | reflexivity].
Defined.

Lemma congruent_seeds_same_instance_witness :
  - 2 ^ 53 < -1 < 2 ^ 50 /\ - 2 ^ 53 < 4294967295 < 2 ^ 50 /\
  (-1) mod 2 ^ 32 = 4294967295 mod 2 ^ 32 /\
  buildInstanceFromSeed 100 (-1) = Some instance_minus_1 /\
  buildInstanceFromSeed 100 4294967295 = Some instance_4294967295 /\
  bits instance_minus_1 = bits instance_4294967295 /\
  decimal instance_minus_1 = decimal instance_4294967295 /\
  alternatives instance_minus_1 = alternatives instance_4294967295.
Proof.
  split; [lia|]. split; [lia|]. split; [reflexivity|].
  split; [vm_compute; reflexivity|]. split; [vm_compute; reflexivity|].
  apply (congruent_seeds_same_instance (-1) 4294967295 100 100);
    [lia | lia | reflexivity | vm_compute; reflexivity
     | vm_compute; reflexivity].
Defined.

Lemma get_request_answered_witness :
  method {| method := "GET"; query := [] |} = "GET"%string /\
  0 <= upcoming (constant_entropy 12345) (drawn (constant_entropy 12345))
    < 10 ^ 9 /\
  exists fuel payload inst e',
    handler fuel {| method := "GET"; query := [] |} (constant_entropy 12345)
    = Some (Json 200 payload, e') /\
    drawn e' = S (drawn (constant_entropy 12345)) /\
    get "instance" payload = Some inst /\
    get "seed" inst
    = Some (JNumber (upcoming (constant_entropy 12345)
                       (drawn (constant_entropy 12345)))) /\
    length (payload_alternatives payload) = 4%nat.
Proof.
  split; [reflexivity|].
  split; [cbn [upcoming drawn constant_entropy]; lia|].
  apply (get_request_answered {| method := "GET"; query := [] |}
           (constant_entropy 12345));
    [reflexivity | cbn [upcoming drawn constant_entropy]; lia].
Defined.

Lemma payload_reveals_answer_witness :
  handler 100 {| method := "GET"; query := [] |} (constant_entropy 12345)
  = Some (Json 200 payload_12345,
          {| upcoming := fun _ => 12345; drawn := 1 |}) /\
  exists inst d,
    get "instance" payload_12345 = Some inst /\
    get "decimal" inst = Some (JNumber d) /\
    Forall (fun alt => exists v,
                get "value" alt = Some (JNumber v) /\
                get "correct" alt = Some (JBool (v =? d)))
           (payload_alternatives payload_12345) /\
    length (List.filter (json_value_is d) (payload_alternatives payload_12345))
    = 1%nat.
Proof.
  split; [vm_compute; reflexivity|].
  apply (payload_reveals_answer 100 {| method := "GET"; query := [] |}
           (constant_entropy 12345) 200 payload_12345
           {| upcoming := fun _ => 12345; drawn := 1 |}).
  vm_compute; reflexivity.
Defined.

(** ** Properties of the generator, with production

    Each property is stated twice over a seed [s]: between [-2^53] and
    [2^50] an instance is returned, within [2^22 + 127] iterations of the
    loop, and has the property; and for any seed, whatever instance a run
    returns has it.  At [2^90] no run returns. *)

Lemma returned_on_range (P : nat -> QuizInstance -> Prop) s :
  (forall fuel inst, buildInstanceFromSeed fuel s = Some inst -> P fuel inst) ->
  - 2 ^ 53 < s < 2 ^ 50 ->
  exists fuel inst,
    Z.of_nat fuel <= 4194431 /\
    buildInstanceFromSeed fuel s = Some inst /\ P fuel inst.
Proof.
  intros HP Hs. destruct (generator_total s Hs) as (fuel & inst & Hf & Hi).
  exists fuel, inst. auto.
Qed.

Lemma nothing_returned_at_2_90 fuel :
  buildInstanceFromSeed fuel (2 ^ 90) = None.
Proof.
  unfold buildInstanceFromSeed.
  assert (Hb : draw_bits [8; 4; 2; 1] (2 ^ 90) = ([0; 0; 0; 0], 2 ^ 90))
    by (vm_compute; reflexivity).
  rewrite Hb.
  change (reduce_from 0 [8; 4; 2; 1] [0; 0; 0; 0] 0) with 0.
  now rewrite wrong_loop_stuck.
Qed.

Lemma fl64_2_90 : JS.fl64 (2 ^ 90) = 2 ^ 90.
Proof. vm_compute. reflexivity. Qed.

(** C1: for a seed between [-2^53] and [2^50] the generator returns an
    instance that has exactly one alternative with [correct = true], whose
    value is the instance's decimal; and for any seed, every instance a run
    returns is so. *)
Theorem exactly_one_correct s :
  (- 2 ^ 53 < s < 2 ^ 50 ->
   exists fuel inst,
     Z.of_nat fuel <= 4194431 /\
     buildInstanceFromSeed fuel s = Some inst /\ one_correct inst) /\
  (forall fuel inst,
     buildInstanceFromSeed fuel s = Some inst -> one_correct inst).
Proof.
  assert (H : forall fuel inst,
             buildInstanceFromSeed fuel s = Some inst -> one_correct inst)
    by (intros fuel inst; apply exactly_one_correct_returned).
  split; [apply (returned_on_range (fun _ => one_correct)) | ]; exact H.
Qed.

Lemma exactly_one_correct_witness :
  (- 2 ^ 53 < 12345 < 2 ^ 50 /\
   exists fuel inst,
     Z.of_nat fuel <= 4194431 /\
     buildInstanceFromSeed fuel 12345 = Some inst /\ one_correct inst) /\
  (buildInstanceFromSeed 100 12345 = Some instance_12345 /\
   one_correct instance_12345).
Proof.
  split.
  - split; [lia | apply (proj1 (exactly_one_correct 12345)); lia].
  - split; [vm_compute; reflexivity|].
    apply (proj2 (exactly_one_correct 12345) 100%nat). vm_compute; reflexivity.
Defined.

Lemma exactly_one_correct_fails_at_2_90 :
  JS.fl64 (2 ^ 90) = 2 ^ 90 /\
  ~ exists fuel inst,
      buildInstanceFromSeed fuel (2 ^ 90) = Some inst /\ one_correct inst.
Proof.
  split; [exact fl64_2_90|]. intros (fuel & inst & H & _).
  rewrite nothing_returned_at_2_90 in H. congruence.
Qed.

(** C3: for a seed between [-2^53] and [2^50] the generator returns an
    instance whose decimal is the dot product of its bits and its cards
    8, 4, 2, 1; and for any seed, every instance a run returns is so. *)
Theorem decimal_is_dot_product s :
  (- 2 ^ 53 < s < 2 ^ 50 ->
   exists fuel inst,
     Z.of_nat fuel <= 4194431 /\
     buildInstanceFromSeed fuel s = Some inst /\ decimal_consistent inst) /\
  (forall fuel inst,
     buildInstanceFromSeed fuel s = Some inst -> decimal_consistent inst).
Proof.
  assert (H : forall fuel inst,
             buildInstanceFromSeed fuel s = Some inst -> decimal_consistent inst)
    by (intros fuel inst; apply decimal_is_dot_product_returned).
  split; [apply (returned_on_range (fun _ => decimal_consistent)) | ]; exact H.
Qed.

Lemma decimal_is_dot_product_witness :
  (- 2 ^ 53 < 12345 < 2 ^ 50 /\
   exists fuel inst,
     Z.of_nat fuel <= 4194431 /\
     buildInstanceFromSeed fuel 12345 = Some inst /\ decimal_consistent inst) /\
  (buildInstanceFromSeed 100 12345 = Some instance_12345 /\
   decimal_consistent instance_12345).
Proof.
  split.
  - split; [lia | apply (proj1 (decimal_is_dot_product 12345)); lia].
  - split; [vm_compute; reflexivity|].
    apply (proj2 (decimal_is_dot_product 12345) 100%nat). vm_compute; reflexivity.
Defined.

Lemma decimal_is_dot_product_fails_at_2_90 :
  JS.fl64 (2 ^ 90) = 2 ^ 90 /\
  ~ exists fuel inst,
      buildInstanceFromSeed fuel (2 ^ 90) = Some inst /\
      decimal_consistent inst.
Proof.
  split; [exact fl64_2_90|]. intros (fuel & inst & H & _).
  rewrite nothing_returned_at_2_90 in H. congruence.
Qed.

(** C4: for a seed between [-2^53] and [2^50] the generator returns an
    instance whose four alternative values are pairwise distinct, the
    three wrong ones differing from each other and from the decimal; and
    for any seed, every instance a run returns is so. *)
Theorem alternative_values_distinct s :
  (- 2 ^ 53 < s < 2 ^ 50 ->
   exists fuel inst,
     Z.of_nat fuel <= 4194431 /\
     buildInstanceFromSeed fuel s = Some inst /\ values_distinct inst) /\
  (forall fuel inst,
     buildInstanceFromSeed fuel s = Some inst -> values_distinct inst).
Proof.
  assert (H : forall fuel inst,
             buildInstanceFromSeed fuel s = Some inst -> values_distinct inst)
    by (intros fuel inst; apply alternative_values_distinct_returned).
  split; [apply (returned_on_range (fun _ => values_distinct)) | ]; exact H.
Qed.

Lemma alternative_values_distinct_witness :
  (- 2 ^ 53 < 12345 < 2 ^ 50 /\
   exists fuel inst,
     Z.of_nat fuel <= 4194431 /\
     buildInstanceFromSeed fuel 12345 = Some inst /\ values_distinct inst) /\
  (buildInstanceFromSeed 100 12345 = Some instance_12345 /\
   values_distinct instance_12345).
Proof.
  split.
  - split; [lia | apply (proj1 (alternative_values_distinct 12345)); lia].
  - split; [vm_compute; reflexivity|].
    apply (proj2 (alternative_values_distinct 12345) 100%nat).
    vm_compute; reflexivity.
Defined.

Lemma alternative_values_distinct_fails_at_2_90 :
  JS.fl64 (2 ^ 90) = 2 ^ 90 /\
  ~ exists fuel inst,
      buildInstanceFromSeed fuel (2 ^ 90) = Some inst /\ values_distinct inst.
Proof.
  split; [exact fl64_2_90|]. intros (fuel & inst & H & _).
  rewrite nothing_returned_at_2_90 in H. congruence.
Qed.

(** C5: for a seed between [-2^53] and [2^50] the generator returns an
    instance whose decimal and four alternative values all lie in 0..15;
    and for any seed, every instance a run returns is so. *)
Theorem values_in_range s :
  (- 2 ^ 53 < s < 2 ^ 50 ->
   exists fuel inst,
     Z.of_nat fuel <= 4194431 /\
     buildInstanceFromSeed fuel s = Some inst /\ values_in_0_15 inst) /\
  (forall fuel inst,
     buildInstanceFromSeed fuel s = Some inst -> values_in_0_15 inst).
Proof.
  assert (H : forall fuel inst,
             buildInstanceFromSeed fuel s = Some inst -> values_in_0_15 inst)
    by (intros fuel inst; apply values_in_range_returned).
  split; [apply (returned_on_range (fun _ => values_in_0_15)) | ]; exact H.
Qed.

Lemma values_in_range_witness :
  (- 2 ^ 53 < 12345 < 2 ^ 50 /\
   exists fuel inst,
     Z.of_nat fuel <= 4194431 /\
     buildInstanceFromSeed fuel 12345 = Some inst /\ values_in_0_15 inst) /\
  (buildInstanceFromSeed 100 12345 = Some instance_12345 /\
   values_in_0_15 instance_12345).
Proof.
  split.
  - split; [lia | apply (proj1 (values_in_range 12345)); lia].
  - split; [vm_compute; reflexivity|].
    apply (proj2 (values_in_range 12345) 100%nat). vm_compute; reflexivity.
Defined.

Lemma values_in_range_fails_at_2_90 :
  JS.fl64 (2 ^ 90) = 2 ^ 90 /\
  ~ exists fuel inst,
      buildInstanceFromSeed fuel (2 ^ 90) = Some inst /\ values_in_0_15 inst.
Proof.
  split; [exact fl64_2_90|]. intros (fuel & inst & H & _).
  rewrite nothing_returned_at_2_90 in H. congruence.
Qed.

(** C9: for a seed between [-2^53] and [2^50] the generator returns an
    instance built as follows: the list before the shuffle is
    [decimal, wrong1, wrong2, wrong3]; the shuffle takes one draw per index,
    for 3, 2 and 1, and swaps that index with [floor(draw * (index + 1))];
    the letters A to D label the shuffled values in order.  For any seed,
    every instance a run returns is built so. *)
Theorem candidates_then_fisher_yates s :
  (- 2 ^ 53 < s < 2 ^ 50 ->
   exists fuel inst,
     Z.of_nat fuel <= 4194431 /\
     buildInstanceFromSeed fuel s = Some inst /\
     shuffled_as_specified fuel s inst) /\
  (forall fuel inst,
     buildInstanceFromSeed fuel s = Some inst ->
     shuffled_as_specified fuel s inst).
Proof.
  assert (H : forall fuel inst,
             buildInstanceFromSeed fuel s = Some inst ->
             shuffled_as_specified fuel s inst)
    by (intros fuel inst; apply candidates_then_fisher_yates_returned).
  split;
    [apply (returned_on_range (fun fuel => shuffled_as_specified fuel s)) | ];
    exact H.
Qed.

Lemma candidates_then_fisher_yates_witness :
  (- 2 ^ 53 < 12345 < 2 ^ 50 /\
   exists fuel inst,
     Z.of_nat fuel <= 4194431 /\
     buildInstanceFromSeed fuel 12345 = Some inst /\
     shuffled_as_specified fuel 12345 inst) /\
  (buildInstanceFromSeed 100 12345 = Some instance_12345 /\
   shuffled_as_specified 100 12345 instance_12345).
Proof.
  split.
  - split; [lia | apply (proj1 (candidates_then_fisher_yates 12345)); lia].
  - split; [vm_compute; reflexivity|].
    apply (proj2 (candidates_then_fisher_yates 12345) 100%nat).
    vm_compute; reflexivity.
Defined.

Lemma candidates_then_fisher_yates_fails_at_2_90 :
  JS.fl64 (2 ^ 90) = 2 ^ 90 /\
  ~ exists fuel inst,
      buildInstanceFromSeed fuel (2 ^ 90) = Some inst /\
      shuffled_as_specified fuel (2 ^ 90) inst.
Proof.
  split; [exact fl64_2_90|]. intros (fuel & inst & H & _).
  rewrite nothing_returned_at_2_90 in H. congruence.
Qed.
